(** * LZF (Lazy Framework): module registry and execution engine

    A shallow embedding of the core of [main.py]: the metadata extractor
    ([LazyFramework._read_meta]), the registry scan
    ([LazyFramework.scan_modules]), the loader ([import_module], [cmd_use]),
    the loaded-module session ([ModuleInstance]) and the keyword search
    ([Search.search_modules]), followed by the properties the specification
    states about them. *)

From Stdlib Require Import String Ascii.
From Stdlib Require Import List NArith ZArith Bool Arith Lia DecimalString.
Import ListNotations.
Local Open Scope list_scope.

(* ================================================================== *)
(** * Text

    A Python [str] is a sequence of Unicode code points. *)
(* ================================================================== *)

Module Str.

Definition char := N.
Definition str := list char.

(** A string literal of the source: its (ASCII) characters as code points. *)
Definition lit (s : string) : str := map N_of_ascii (list_ascii_of_string s).

Definition str_eq_dec (a b : str) : {a = b} + {a <> b} := list_eq_dec N.eq_dec a b.

(** [strip_prefix p s] is [Some rest] when [s = p ++ rest]. *)
Fixpoint strip_prefix (p s : str) : option str :=
  match p, s with
  | [], _ => Some s
  | c :: p', d :: s' => if N.eqb c d then strip_prefix p' s' else None
  | _ :: _, [] => None
  end.

(** [s.startswith(p)] *)
Definition startswith (s p : str) : bool :=
  match strip_prefix p s with Some _ => true | None => false end.

(** [sub in s] *)
Fixpoint contains (s sub : str) : bool :=
  startswith s sub ||
  match s with
  | [] => false
  | _ :: s' => contains s' sub
  end.

(** [s.replace(old, new)] for a one-character [old] (here [os.sep]). *)
Definition replace (s : str) (old : char) (new : str) : str :=
  flat_map (fun c => if N.eqb c old then new else [c]) s.

(** [sep.join(parts)] *)
Fixpoint join (sep : str) (parts : list str) : str :=
  match parts with
  | [] => []
  | [p] => p
  | p :: rest => p ++ sep ++ join sep rest
  end.

(** The longest prefix of [s] whose characters satisfy [p], and the rest. *)
Fixpoint span (p : char -> bool) (s : str) : str * str :=
  match s with
  | c :: s' => if p c then let (a, b) := span p s' in (c :: a, b) else ([], s)
  | [] => ([], [])
  end.

(** [str(n)] for a natural number: its decimal digits. *)
Definition str_of_nat (n : nat) : str :=
  lit (NilZero.string_of_uint (Nat.to_uint n)).

End Str.
Import Str.

(* ================================================================== *)
(** * Dictionaries

    A Python [dict] keeps its keys unique and in insertion order; assigning
    to an existing key keeps the key's position. *)
(* ================================================================== *)

Module Dict.

Definition dict (V : Type) := list (str * V).

Section Ops.
Context {V : Type}.

(** [d.get(k)] as an option ([d[k]] raises [KeyError] on [None]). *)
Fixpoint get (d : dict V) (k : str) : option V :=
  match d with
  | [] => None
  | (k', v) :: d' => if str_eq_dec k k' then Some v else get d' k
  end.

(** [k in d] *)
Definition mem (k : str) (d : dict V) : bool :=
  match get d k with Some _ => true | None => false end.

(** [d[k] = v] *)
Fixpoint set (d : dict V) (k : str) (v : V) : dict V :=
  match d with
  | [] => [(k, v)]
  | (k', v') :: d' =>
      if str_eq_dec k k' then (k', v) :: d' else (k', v') :: set d' k v
  end.

(** [d.keys()] and [d.items()], in iteration order. *)
Definition keys (d : dict V) : list str := map fst d.
Definition items (d : dict V) : list (str * V) := d.

(** A dict display [{k1: v1, k2: v2, ...}] or comprehension: the items are
    assigned from left to right into an empty dict. *)
Definition of_items (l : list (str * V)) : dict V :=
  fold_left (fun d kv => set d (fst kv) (snd kv)) l [].

(** [{**a, **b}]: the items of [b] assigned into a copy of [a]. *)
Definition update (a b : dict V) : dict V :=
  fold_left (fun d kv => set d (fst kv) (snd kv)) b a.

End Ops.

End Dict.
Import Dict.

(* ================================================================== *)
(** * Regular expressions

    The fragment of Python's [re] the source uses: a pattern is a sequence
    of one-character items (a literal or a class), greedy repetitions of a
    class, and the parentheses of group 1.  Matching is Python's: leftmost,
    greedy, with backtracking. *)
(* ================================================================== *)

Module Re.

Inductive item :=
| One (p : char -> bool)     (* a literal character or a class *)
| Star (p : char -> bool)    (* [c*], greedy *)
| Plus (p : char -> bool)    (* [c+], greedy *)
| Open                       (* ( *)
| Close.                     (* ) *)

Definition regex := list item.

(** A match: the text of group 1 and the text that follows the match. *)
Record matched := Matched { group1 : str; after : str }.

Definition as_match (x : str * str) : matched := Matched (fst x) (snd x).

(** A consumed character joins group 1 while the group is open. *)
Definition consume (inside : bool) (c : char) (m : matched) : matched :=
  if inside then Matched (c :: group1 m) (after m) else m.

(** The characters of a repetition join group 1 in their order. *)
Definition consume_all (inside : bool) (run : str) (m : matched) : matched :=
  fold_right (consume inside) m run.

(** [exec r t inside]: match [r] at the start of [t].  A repetition first
    takes as many characters as it can and gives them back one at a time
    while the rest of the pattern fails. *)
Fixpoint exec (r : regex) (t : str) (inside : bool) {struct r} : option matched :=
  match r with
  | [] => Some (Matched [] t)
  | Open :: r' => exec r' t true
  | Close :: r' => exec r' t false
  | One p :: r' =>
      match t with
      | c :: t' => if p c then option_map (consume inside c) (exec r' t' inside) else None
      | [] => None
      end
  | Star p :: r' =>
      (fix greedy (t : str) : option matched :=
         match t with
         | c :: t' =>
             if p c then
               match greedy t' with
               | Some m => Some (consume inside c m)
               | None => exec r' t inside
               end
             else exec r' t inside
         | [] => exec r' [] inside
         end) t
  | Plus p :: r' =>
      match t with
      | c :: t0 =>
          if p c then
            option_map (consume inside c)
              ((fix greedy (t : str) : option matched :=
                  match t with
                  | c :: t' =>
                      if p c then
                        match greedy t' with
                        | Some m => Some (consume inside c m)
                        | None => exec r' t inside
                        end
                      else exec r' t inside
                  | [] => exec r' [] inside
                  end) t0)
          else None
      | [] => None
      end
  end.

(** [re.search(r, t)]: the match at the leftmost position that has one. *)
Fixpoint search (r : regex) (t : str) : option matched :=
  match exec r t false with
  | Some m => Some m
  | None =>
      match t with
      | [] => None
      | _ :: t' => search r t'
      end
  end.

(** [re.findall(r, t)] for a pattern with one group: group 1 of every
    match, scanning from left to right and resuming where the previous match
    ended.  [skip] counts the characters of the previous match still to be
    passed over. *)
Fixpoint findall_from (r : regex) (t : str) (skip : nat) : list str :=
  match skip, t with
  | S k, _ :: t' => findall_from r t' k
  | S _, [] => []
  | O, [] =>
      match exec r [] false with
      | Some m => [group1 m]
      | None => []
      end
  | O, _ :: t' =>
      match exec r t false with
      | Some m => group1 m :: findall_from r t' (length t' - length (after m))
      | None => findall_from r t' 0
      end
  end.

Definition findall (r : regex) (t : str) : list str := findall_from r t 0.

(** Character classes of the source's patterns. *)
Definition chr (s : string) : char :=
  match s with
  | String a _ => N_of_ascii a
  | EmptyString => 0%N
  end.

Definition just (c : char) : char -> bool := N.eqb c.
Definition between (lo hi : char) (c : char) : bool := N.leb lo c && N.leb c hi.

(** [\s] on [str] patterns: the characters for which [str.isspace] holds. *)
Definition space (c : char) : bool :=
  (between 9 13 c || between 28 32 c || just 133 c || just 160 c
   || just 5760 c || between 8192 8202 c || just 8232 c || just 8233 c
   || just 8239 c || just 8287 c || just 12288 c)%N.

(** The class of the two quotation marks: the apostrophe (39) and the
    double quotation mark (34). *)
Definition quote (c : char) : bool := just 39%N c || just 34%N c.
(** [A-Za-z0-9_] *)
Definition word (c : char) : bool :=
  between (chr "A") (chr "Z") c || between (chr "a") (chr "z") c
  || between (chr "0") (chr "9") c || just (chr "_") c.
(** Any character but a closing brace; any character but a quotation mark. *)
Definition not_rbrace (c : char) : bool := negb (just (chr "}") c).
Definition not_quote (c : char) : bool := negb (quote c).

(** The literal characters of a pattern. *)
Definition chars (s : string) : regex := map (fun c => One (just c)) (lit s).

End Re.

(* ================================================================== *)
(** * Python values, exceptions and the trace of a command *)
(* ================================================================== *)

(** A value of an option or of the session context.  [PyObject] is an
    object of any class that takes its [__format__] from [object] (a list,
    a tuple, a dict, a set, bytes, an instance of a plain class): the
    engine only formats such a value and tests its truth, so it is given
    by the name of its class, by [str(v)] and by [bool(v)]. *)
Inductive pyval :=
| PyNone
| PyBool (b : bool)
| PyInt (z : Z)
| PyStr (s : str)
| PyObject (class_name : str) (text : str) (truth : bool).

(** The exceptions of class [Exception]; those outside it ([SystemExit],
    [KeyboardInterrupt]) are not modelled. *)
Inductive exn :=
| KeyError (arg : str)
| AttributeError (attr : str)
| Exception (msg : str).      (* any other exception of class [Exception] *)

Inductive result (A : Type) :=
| Ok (a : A)
| Raise (e : exn).
Arguments Ok {A} a.
Arguments Raise {A} e.

(** What a command leaves on the outside: the lines it prints, and the calls
    it makes into a module's [run] entry point with their two arguments,
    recorded as they are when the call is made.  A [print] call is recorded
    with one [printable] per argument: a string or an exception. *)
Inductive printable :=
| PS (s : str)
| PE (e : exn).

Inductive event :=
| Print (args : list printable)
| Call (module_name : str) (session options : dict pyval).

(** Code that reads and updates a state [S], may raise, and leaves a trace. *)
Definition M (S A : Type) : Type := S -> result A * S * list event.

Definition ret {S A} (a : A) : M S A := fun s => (Ok a, s, []).

Definition bind {S A B} (m : M S A) (k : A -> M S B) : M S B :=
  fun s =>
    match m s with
    | (Ok a, s1, o1) => let '(r, s2, o2) := k a s1 in (r, s2, o1 ++ o2)
    | (Raise e, s1, o1) => (Raise e, s1, o1)
    end.

Definition raise {S A} (e : exn) : M S A := fun s => (Raise e, s, []).

(** [try: m  except Exception as e: h e].  Every [exn] is of class
    [Exception], so the handler takes each of them. *)
Definition try_except {S A} (m : M S A) (h : exn -> M S A) : M S A :=
  fun s =>
    match m s with
    | (Ok a, s1, o1) => (Ok a, s1, o1)
    | (Raise e, s1, o1) => let '(r, s2, o2) := h e s1 in (r, s2, o1 ++ o2)
    end.

Definition get_state {S} : M S S := fun s => (Ok s, s, []).
Definition put_state {S} (s : S) : M S unit := fun _ => (Ok tt, s, []).
Definition print {S} (args : list printable) : M S unit :=
  fun s => (Ok tt, s, [Print args]).

Declare Scope py_scope.
Delimit Scope py_scope with py.
Notation "x <- m ;; k" := (bind m (fun x => k))
  (at level 61, m at next level, right associativity) : py_scope.
Notation "m ;; k" := (bind m (fun _ => k))
  (at level 61, right associativity) : py_scope.
Notation "'try' m 'except' h" := (try_except m h)
  (at level 60, m at level 61, h at level 61) : py_scope.

(** The state, the outcome and the trace of a run of [m] from [s]. *)
Definition state_of {S A} (x : result A * S * list event) : S := snd (fst x).
Definition outcome_of {S A} (x : result A * S * list event) : result A := fst (fst x).
Definition trace_of {S A} (x : result A * S * list event) : list event := snd x.

(* ================================================================== *)
(** * Module objects and the runtime environment *)
(* ================================================================== *)

(** One option of a module's [OPTIONS]: a dict with the fields [required],
    [default] and [description], each of which may be missing. *)
Abbreviation option_meta := (dict pyval) (only parsing).

(** The entry point of a module: it receives the session context and the
    options mapping by reference, so it returns them as it leaves them. *)
Definition run_fn :=
  dict pyval -> dict pyval -> result unit * dict pyval * dict pyval.

(** The module object left by the execution of a module file.  Its
    [OPTIONS] attribute, when there is one, is given by the items of the
    dict in the order they were entered; [run], when there is one, is the
    entry point. *)
Record PyModule := {
  OPTIONS_items : option (list (str * list (str * pyval)));
  run_attr : option run_fn
}.

(** [mod.OPTIONS] *)
Definition OPTIONS (m : PyModule) : option (dict option_meta) :=
  option_map
    (fun l => of_items (map (fun kv => (fst kv, of_items (snd kv))) l))
    (OPTIONS_items m).

Inductive Root := MODULE_DIR | EXAMPLES_DIR.

(** The path [folder / rel] of a file found under one of the two roots;
    [rel] is [str(p.relative_to(folder))]. *)
Record Path := { folder : Root; rel : str }.

(** What the program takes from the interpreter and the operating system. *)
Record Env := {
  (** [str.lower] *)
  lower : str -> str;
  (** [os.sep] *)
  sep : char;
  (** [os.getenv] of USER *)
  getenv_USER : option str;
  (** [folder.rglob] of the module file pattern: the relative paths found *)
  rglob : Root -> list str;
  (** [path.open(...).readlines()], [None] when opening or reading raises *)
  readlines : Path -> option (list str);
  (** the module object [exec_module] builds from the file, or what the
      loading raises *)
  exec_module : Path -> result PyModule
}.

Definition METADATA_READ_LINES : nat := 120.

(* ================================================================== *)
(** * ModuleInstance *)
(* ================================================================== *)

Module ModuleInstance.

Record t := mk { name : str; module : PyModule; options : dict pyval }.

Definition with_options (self : t) (o : dict pyval) : t :=
  mk (name self) (module self) o.

(** [mod.OPTIONS], raising [AttributeError] when the attribute is missing. *)
Definition module_OPTIONS {S} (m : PyModule) : M S (dict option_meta) :=
  match OPTIONS m with
  | Some opts => ret opts
  | None => raise (AttributeError (lit "OPTIONS"))
  end.

Definition set_option (key : str) (value : pyval) : M t unit :=
  (self <- get_state ;;
   opts <- module_OPTIONS (module self) ;;
   if negb (mem key opts)
   then raise (KeyError (lit "Unknown option '" ++ key ++ lit "'"))
   else put_state (with_options self (set (options self) key value)))%py.

(** [v.get("default")] *)
Definition get_default (v : option_meta) : pyval :=
  match get v (lit "default") with
  | Some d => d
  | None => PyNone
  end.

(** [self.options.get(k, v.get("default"))] *)
Definition current_value (self : t) (k : str) (v : option_meta) : pyval :=
  match get (options self) k with
  | Some x => x
  | None => get_default v
  end.

Definition get_options : M t (dict (dict pyval)) :=
  (self <- get_state ;;
   opts <- module_OPTIONS (module self) ;;
   ret (of_items
          (map (fun kv =>
                  (fst kv,
                   update [(lit "value", current_value self (fst kv) (snd kv))]
                          (snd kv)))
               (items opts))))%py.

(** [self.module.run(session, self.options)]: the state is the session
    context together with the instance, since the module receives both
    dicts by reference. *)
Definition run : M (dict pyval * t) unit :=
  fun st =>
    let (session, self) := st in
    match run_attr (module self) with
    | None => (Raise (AttributeError (lit "run")), st, [])
    | Some f =>
        let '(r, session', options') := f session (options self) in
        (r, (session', with_options self options'),
         [Call (name self) session (options self)])
    end.

End ModuleInstance.

(* ================================================================== *)
(** * Metadata extraction and search *)
(* ================================================================== *)

(** The record [_read_meta] returns: the dict with the two keys
    [description] and [options], both always present. *)
Record Meta := { description : str; options : list str }.

Module Search.

Record t := mk { modules : dict Path; metadata : dict Meta }.

(** [meta.get("description", ...)] is [description meta] whatever the
    default, since the key is always present. *)
Definition search_modules (env : Env) (self : t) (keyword : str)
  : list (str * str) :=
  let keyword := lower env keyword in
  flat_map
    (fun km =>
       let (key, meta) := (km : str * Meta) in
       if contains (lower env key) keyword
          || contains (lower env (description meta)) keyword
       then [(key, description meta)]
       else [])
    (items (metadata self)).

End Search.

(* ================================================================== *)
(** * LazyFramework *)
(* ================================================================== *)

Module LazyFramework.

Import Re.

Record t := mk {
  modules : dict Path;
  metadata : dict Meta;
  loaded_module : option ModuleInstance.t;
  session : dict pyval
}.

Definition with_registry (self : t) (mo : dict Path) (me : dict Meta) : t :=
  mk mo me (loaded_module self) (session self).
Definition with_loaded_module (self : t) (l : option ModuleInstance.t) : t :=
  mk (modules self) (metadata self) l (session self).

(** The three patterns of [_read_meta]. *)

(** a quotation mark, [description], a quotation mark, blanks, a colon,
    blanks, a quotation mark, group 1: one or more characters that are not
    quotation marks, a quotation mark *)
Definition DESCRIPTION_RE : regex :=
  [One quote] ++ chars "description"
  ++ [One quote; Star space; One (just (chr ":")); Star space; One quote;
      Open; Plus not_quote; Close; One quote].

(** [OPTIONS], blanks, an equals sign, blanks, an opening brace, group 1:
    any number of characters that are not closing braces, a closing brace *)
Definition OPTIONS_RE : regex :=
  chars "OPTIONS"
  ++ [Star space; One (just (chr "=")); Star space; One (just (chr "{"));
      Open; Star not_rbrace; Close; One (just (chr "}"))].

(** a quotation mark, group 1: one or more of [A-Za-z0-9_], a quotation
    mark, blanks, a colon *)
Definition NAME_RE : regex :=
  [One quote; Open; Plus word; Close; One quote; Star space;
   One (just (chr ":"))].

Section WithEnv.
Variable env : Env.

Definition _read_meta (path : Path) : Meta :=
  let data := {| description := []; options := [] |} in
  match readlines env path with
  | None => data
  | Some lines =>
      let text := concat (firstn METADATA_READ_LINES lines) in
      let data :=
        match search DESCRIPTION_RE text with
        | Some m => {| description := group1 m; options := options data |}
        | None => data
        end in
      let data :=
        match search OPTIONS_RE text with
        | Some mo =>
            {| description := description data;
               options := findall NAME_RE (group1 mo) |}
        | None => data
        end in
      data
  end.

(** The key of the file [rel] found under the root named [prefix]. *)
Definition key_of (prefix : str) (rel : str) : str :=
  prefix ++ lit "/" ++ replace rel (sep env) (lit "/").

Definition roots : list (Root * str) :=
  [(MODULE_DIR, lit "modules"); (EXAMPLES_DIR, lit "examples")].

(** One turn of the inner loop of [scan_modules]. *)
Definition scan_file (fp : Root * str) (self : t) (r : str) : t :=
  let p := {| folder := fst fp; rel := r |} in
  let key := key_of (snd fp) r in
  with_registry self (set (modules self) key p)
                     (set (metadata self) key (_read_meta p)).

(** [_ensure_dirs] creates the directories that are missing and leaves
    the engine's state alone; the scan starts after it. *)
Definition scan_modules : M t unit :=
  fun self =>
    (Ok tt,
     fold_left
       (fun self fp => fold_left (scan_file fp) (rglob env (fst fp)) self)
       roots
       (with_registry self [] []),
     []).

(** [LazyFramework()] *)
Definition init : t :=
  let user :=
    match getenv_USER env with Some u => u | None => lit "unknown" end in
  state_of (scan_modules (mk [] [] None [(lit "user", PyStr user)])).

Definition import_module (key : str) : M t PyModule :=
  (self <- get_state ;;
   match get (modules self) key with
   | None => raise (KeyError key)
   | Some path =>
       match exec_module env path with
       | Ok pymod => ret pymod
       | Raise e => raise e
       end
   end)%py.

(** The key [cmd_use] looks up for the name the user gave. *)
Definition candidate_key (self : t) (key : str) : str :=
  if startswith key (lit "modules/") || startswith key (lit "examples/")
  then key
  else
    match
      find (fun cand => mem cand (modules self))
           (map (fun prefix => prefix ++ lit "/" ++ key)
                [lit "modules"; lit "examples"])
    with
    | Some cand => cand
    | None => key
    end.

(** The loop of [cmd_use] that enters the declared defaults. *)
Definition enter_defaults (opts : dict option_meta) (inst : ModuleInstance.t)
  : ModuleInstance.t :=
  fold_left
    (fun inst kv =>
       match get (snd kv) (lit "default") with
       | Some d =>
           ModuleInstance.with_options inst
             (set (ModuleInstance.options inst) (fst kv) d)
       | None => inst
       end)
    (items opts) inst.

Definition cmd_use (args : list str) : M t unit :=
  match args with
  | [] => print [PS (lit "Usage: use <module>")]
  | key :: _ =>
      (self <- get_state ;;
       let key := candidate_key self key in
       try
         (pymod <- import_module key ;;
          let inst := ModuleInstance.mk key pymod [] in
          opts <- ModuleInstance.module_OPTIONS pymod ;;
          let inst := enter_defaults opts inst in
          self <- get_state ;;
          put_state (with_loaded_module self (Some inst)) ;;
          print [PS (lit "Loaded module " ++ key)])
       except (fun e => print [PS (lit "Load error:"); PE e]))%py
  end.

(** Run a method of the loaded instance on the framework's state. *)
Definition on_loaded {A} (inst : ModuleInstance.t) (m : M ModuleInstance.t A)
  : M t A :=
  fun self =>
    let '(r, inst', o) := m inst in
    (r, with_loaded_module self (Some inst'), o).

Definition cmd_set (args : list str) : M t unit :=
  (self <- get_state ;;
   match loaded_module self with
   | None => print [PS (lit "No module loaded.")]
   | Some inst =>
       match args with
       | opt :: (_ :: _) as rest =>
           let val := join (lit " ") rest in
           try
             (on_loaded inst (ModuleInstance.set_option opt (PyStr val)) ;;
              print [PS (opt ++ lit " => " ++ val)])
           except (fun e => print [PE e])
       | _ => print [PS (lit "Usage: set <option> <value>")]
       end
   end)%py.

Definition cmd_run (args : list str) : M t unit :=
  (self <- get_state ;;
   match loaded_module self with
   | None => print [PS (lit "No module loaded.")]
   | Some inst =>
       try
         (fun self =>
            let '(r, (session', inst'), o) :=
              ModuleInstance.run (session self, inst) in
            (r, mk (modules self) (metadata self) (Some inst') session', o))
       except (fun e => print [PS (lit "Run error:"); PE e])
   end)%py.

Definition cmd_back (args : list str) : M t unit :=
  (self <- get_state ;;
   match loaded_module self with
   | Some inst =>
       print [PS (lit "Unloaded " ++ ModuleInstance.name inst)] ;;
       put_state (with_loaded_module self None)
   | None => print [PS (lit "No module loaded.")]
   end)%py.

Definition cmd_scan (args : list str) : M t unit :=
  (scan_modules ;;
   self <- get_state ;;
   print [PS (lit "Scanned " ++ str_of_nat (length (modules self))
              ++ lit " modules.")])%py.

Definition cmd_search (args : list str) : M t unit :=
  match args with
  | [] => print [PS (lit "Usage: search <keyword>")]
  | keyword :: _ =>
      fun self =>
        let res :=
          Search.search_modules env
            (Search.mk (modules self) (metadata self)) keyword in
        (Ok tt, self,
         map (fun r => Print [PS (fst r ++ lit " - " ++ snd r)]) res)
  end.

End WithEnv.

End LazyFramework.

(* ================================================================== *)
(** * The extraction as the specification words it

    Independent of the pattern matcher: direct scans of the text for the
    forms the specification names. *)
(* ================================================================== *)

Module Spec.

Import Re.

Definition skip_blanks (t : str) : str := snd (span space t).

(** The character [c] at the head of [t]; the text after it. *)
Definition expect (c : char) (t : str) : option str :=
  match t with
  | d :: t' => if N.eqb c d then Some t' else None
  | [] => None
  end.

(** A quotation mark at the head of [t]; the text after it. *)
Definition expect_quote (t : str) : option str :=
  match t with
  | d :: t' => if quote d then Some t' else None
  | [] => None
  end.

(** An [OPTIONS] declaration that starts at the head of [t]: the word, an
    equals sign and an opening brace, blanks allowed between them, and a
    closing brace further on.  Its block is the text between the opening
    brace and the first closing brace.  Returns the block and the text
    after the closing brace. *)
Definition options_decl_at (t : str) : option (str * str) :=
  match strip_prefix (lit "OPTIONS") t with
  | None => None
  | Some t1 =>
      match expect (chr "=") (skip_blanks t1) with
      | None => None
      | Some t2 =>
          match expect (chr "{") (skip_blanks t2) with
          | None => None
          | Some t3 =>
              match snd (span not_rbrace t3) with
              | _ :: t4 => Some (fst (span not_rbrace t3), t4)
              | [] => None
              end
          end
      end
  end.

(** The block of the first [OPTIONS] declaration of the text. *)
Fixpoint options_block (t : str) : option str :=
  match options_decl_at t with
  | Some bt => Some (fst bt)
  | None =>
      match t with
      | [] => None
      | _ :: t' => options_block t'
      end
  end.

(** The other reading of a block: the text up to the closing brace that
    matches the opening brace, [depth] inner braces being open. *)
Fixpoint until_matching_brace (depth : nat) (t : str) : option str :=
  match t with
  | [] => None
  | c :: t' =>
      if N.eqb c (chr "}") then
        match depth with
        | O => Some []
        | S d => option_map (cons c) (until_matching_brace d t')
        end
      else if N.eqb c (chr "{") then
        option_map (cons c) (until_matching_brace (S depth) t')
      else option_map (cons c) (until_matching_brace depth t')
  end.

Definition outer_block_at (t : str) : option str :=
  match strip_prefix (lit "OPTIONS") t with
  | None => None
  | Some t1 =>
      match expect (chr "=") (skip_blanks t1) with
      | None => None
      | Some t2 =>
          match expect (chr "{") (skip_blanks t2) with
          | None => None
          | Some t3 => until_matching_brace 0 t3
          end
      end
  end.

(** The text between the outer braces of the first [OPTIONS] declaration,
    inner braces matched. *)
Fixpoint outer_block (t : str) : option str :=
  match outer_block_at t with
  | Some b => Some b
  | None =>
      match t with
      | [] => None
      | _ :: t' => outer_block t'
      end
  end.

(** A quoted identifier followed by a colon at the head of [t]: a quotation
    mark, one or more identifier characters up to a quotation mark, and a
    colon, which comes right after the closing mark when [immediately] is
    set and after any number of blanks otherwise.  Returns the identifier
    and the text after the colon. *)
Definition quoted_name_at (immediately : bool) (t : str) : option (str * str) :=
  match expect_quote t with
  | None => None
  | Some t1 =>
      match fst (span word t1) with
      | [] => None
      | name =>
          match expect_quote (snd (span word t1)) with
          | None => None
          | Some t2 =>
              match expect (chr ":")
                      (if immediately then t2 else skip_blanks t2) with
              | None => None
              | Some t3 => Some (name, t3)
              end
          end
      end
  end.

(** Every quoted identifier followed by a colon in [t], in the order in
    which they appear. *)
Fixpoint quoted_names (immediately : bool) (t : str) : list str :=
  match t with
  | [] => []
  | _ :: t' =>
      match quoted_name_at immediately t with
      | Some nt => fst nt :: quoted_names immediately t'
      | None => quoted_names immediately t'
      end
  end.

(** A [description] field at the head of [t]: the quoted word, a colon and
    a quoted value of at least one character, blanks allowed around the
    colon.  Returns the value and the text after it. *)
Definition description_at (t : str) : option (str * str) :=
  match expect_quote t with
  | None => None
  | Some t1 =>
      match strip_prefix (lit "description") t1 with
      | None => None
      | Some t2 =>
          match expect_quote t2 with
          | None => None
          | Some t3 =>
              match expect (chr ":") (skip_blanks t3) with
              | None => None
              | Some t4 =>
                  match expect_quote (skip_blanks t4) with
                  | None => None
                  | Some t5 =>
                      match fst (span not_quote t5), snd (span not_quote t5) with
                      | (_ :: _) as value, _ :: t6 => Some (value, t6)
                      | _, _ => None
                      end
                  end
              end
          end
      end
  end.

(** The value of the first [description] field of the text. *)
Fixpoint description_field (t : str) : option str :=
  match description_at t with
  | Some vt => Some (fst vt)
  | None =>
      match t with
      | [] => None
      | _ :: t' => description_field t'
      end
  end.

(** The text the extractor looks at: the first 120 lines. *)
Definition head_text (lines : list str) : str :=
  concat (firstn METADATA_READ_LINES lines).

End Spec.

(* ================================================================== *)
(** * Vocabulary of the properties *)
(* ================================================================== *)

Import Re.

(** The files one scan discovers, in the order of the two loops: the root
    with its prefix, and the relative path. *)
Definition discovered (env : Env) : list ((Root * str) * str) :=
  flat_map (fun fp => map (fun r => (fp, r)) (rglob env (fst fp)))
           LazyFramework.roots.

Definition path_of (d : (Root * str) * str) : Path :=
  {| folder := fst (fst d); rel := snd d |}.

Definition key_of_file (env : Env) (d : (Root * str) * str) : str :=
  LazyFramework.key_of env (snd (fst d)) (snd d).

(** Relative paths never contain a slash on a platform whose separator is
    another character. *)
Definition paths_portable (env : Env) : Prop :=
  sep env = chr "/"
  \/ forall root r, In r (rglob env root) -> ~ In (chr "/") r.

Definition empty_meta : Meta := {| description := []; options := [] |}.

(** [use] reports success by its one line of output. *)
Definition loaded_line (key : str) : list event :=
  [Print [PS (lit "Loaded module " ++ key)]].

Definition load_error_line (e : exn) : list event :=
  [Print [PS (lit "Load error:"); PE e]].

(** The default an option's schema entry declares, if it declares one. *)
Definition declared_default (opts : dict option_meta) (name : str)
  : option pyval :=
  match get opts name with
  | Some meta => get meta (lit "default")
  | None => None
  end.

(** The value the user gave to option [name] by the last [set] command that
    names it, among the argument lists [sets] of successive [set] commands. *)
Fixpoint override (sets : list (list str)) (name : str) : option pyval :=
  match sets with
  | [] => None
  | args :: sets' =>
      match override sets' name with
      | Some v => Some v
      | None =>
          match args with
          | opt :: (_ :: _) as rest =>
              if str_eq_dec opt name
              then Some (PyStr (join (lit " ") rest))
              else None
          | _ => None
          end
      end
  end.

(** The state after a sequence of [set] commands. *)
Definition after_sets (sets : list (list str)) (self : LazyFramework.t)
  : LazyFramework.t :=
  fold_left (fun s args => state_of (LazyFramework.cmd_set args s)) sets self.


(** The mapping [getOptions()] resolves: every schema option bound to the
    value reported for it. *)
Definition resolved (d : dict (dict pyval)) : dict pyval :=
  flat_map
    (fun ke => match get (snd ke) (lit "value") with
               | Some v => [(fst ke, v)]
               | None => []
               end)
    (items d).

(** Case-insensitive containment, the way the search decides it. *)
Definition contains_nocase (env : Env) (s keyword : str) : bool :=
  contains (lower env s) (lower env keyword).

Definition hit (env : Env) (keyword : str) (km : str * Meta) : bool :=
  contains_nocase env (fst km) keyword
  || contains_nocase env (description (snd km)) keyword.

(* ================================================================== *)
(** * A concrete installation

    The example module [aux/echo.py] the program ships, and a few module
    files of other shapes, on a platform whose separator is the slash. *)
(* ================================================================== *)

Module Demo.

(** A double-quoted string of a module's text. *)
Definition dq (s : string) : str := 34%N :: lit s ++ [34%N].
Definition nl : str := [10%N].

Definition ascii_lower (s : str) : str :=
  map (fun c => if between 65%N 90%N c then (c + 32)%N else c) s.

Definition pass : run_fn := fun session options => (Ok tt, session, options).

(** examples/aux/echo.py *)
Definition echo_lines : list str :=
  [ lit "MODULE_INFO={" ++ dq "name" ++ lit ":" ++ dq "aux/echo" ++ lit ","
      ++ dq "description" ++ lit ":" ++ dq "Echo string back (safe)"
      ++ lit "}" ++ nl;
    lit "OPTIONS={" ++ dq "MSG" ++ lit ":{" ++ dq "required" ++ lit ":True,"
      ++ dq "default" ++ lit ":" ++ dq EmptyString ++ lit "," ++ dq "description"
      ++ lit ":" ++ dq "Message to echo" ++ lit "}}" ++ nl;
    lit "def run(session,options):print(" ++ dq "ECHO:" ++ lit ",options.get("
      ++ dq "MSG" ++ lit "," ++ dq EmptyString ++ lit "))" ].

Definition echo_module : PyModule :=
  {| OPTIONS_items :=
       Some [(lit "MSG",
              [(lit "required", PyBool true);
               (lit "default", PyStr []);
               (lit "description", PyStr (lit "Message to echo"))])];
     run_attr := Some pass |}.

(** The value of [OPTIONS] in that module. *)
Definition echo_schema : dict (dict pyval) :=
  [(lit "MSG",
    [(lit "required", PyBool true);
     (lit "default", PyStr []);
     (lit "description", PyStr (lit "Message to echo"))])].

(** modules/bare.py: an entry point and nothing else. *)
Definition bare_lines : list str :=
  [ lit "def run(session, options):" ++ nl; lit "    pass" ++ nl ].

Definition bare_module : PyModule :=
  {| OPTIONS_items := None; run_attr := Some pass |}.

(** modules/quiet.py: an empty options mapping, built by a call. *)
Definition quiet_lines : list str :=
  [ lit "OPTIONS = dict()" ++ nl;
    lit "def run(session, options):" ++ nl; lit "    pass" ++ nl ].

Definition quiet_module : PyModule :=
  {| OPTIONS_items := Some []; run_attr := Some pass |}.

(** modules/need.py: one required option that declares no default. *)
Definition need_lines : list str :=
  [ lit "OPTIONS = {" ++ dq "TARGET" ++ lit ": {" ++ dq "required"
      ++ lit ": True}}" ++ nl;
    lit "def run(session, options):" ++ nl; lit "    pass" ++ nl ].

Definition need_module : PyModule :=
  {| OPTIONS_items := Some [(lit "TARGET", [(lit "required", PyBool true)])];
     run_attr := Some pass |}.

(** modules/spaced.py: two options, and a blank between the name of the
    first and its colon. *)
Definition spaced_lines : list str :=
  [ lit "OPTIONS = {" ++ dq "PORT" ++ lit " : {" ++ dq "default" ++ lit ": "
      ++ dq "80" ++ lit "}, " ++ dq "HOST" ++ lit ": {" ++ dq "default"
      ++ lit ": " ++ dq "localhost" ++ lit "}}" ++ nl;
    lit "def run(session, options):" ++ nl; lit "    pass" ++ nl ].

Definition spaced_module : PyModule :=
  {| OPTIONS_items :=
       Some [(lit "PORT", [(lit "default", PyStr (lit "80"))]);
             (lit "HOST", [(lit "default", PyStr (lit "localhost"))])];
     run_attr := Some pass |}.

(** modules/late.py: 120 lines of comment, then the declaration of one
    option. *)
Definition late_lines : list str :=
  repeat (lit "#" ++ nl) 120
  ++ [ lit "OPTIONS = {" ++ dq "MSG" ++ lit ": {" ++ dq "default" ++ lit ": "
         ++ dq "x" ++ lit "}}" ++ nl;
       lit "def run(session, options):" ++ nl; lit "    pass" ++ nl ].

Definition late_module : PyModule :=
  {| OPTIONS_items := Some [(lit "MSG", [(lit "default", PyStr (lit "x"))])];
     run_attr := Some pass |}.

Definition is_file (p : Path) (f : Root) (r : string) : bool :=
  (match folder p, f with
   | MODULE_DIR, MODULE_DIR | EXAMPLES_DIR, EXAMPLES_DIR => true
   | _, _ => false
   end)
  && if str_eq_dec (rel p) (lit r) then true else false.

(** modules/locked.py is there but cannot be opened. *)
Definition env : Env :=
  {| lower := ascii_lower;
     sep := chr "/";
     getenv_USER := Some (lit "root");
     rglob := fun root =>
       match root with
       | MODULE_DIR =>
           [lit "bare.py"; lit "late.py"; lit "locked.py"; lit "need.py";
            lit "quiet.py"; lit "spaced.py"]
       | EXAMPLES_DIR => [lit "aux/echo.py"]
       end;
     readlines := fun p =>
       if is_file p EXAMPLES_DIR "aux/echo.py" then Some echo_lines
       else if is_file p MODULE_DIR "bare.py" then Some bare_lines
       else if is_file p MODULE_DIR "quiet.py" then Some quiet_lines
       else if is_file p MODULE_DIR "need.py" then Some need_lines
       else if is_file p MODULE_DIR "spaced.py" then Some spaced_lines
       else if is_file p MODULE_DIR "late.py" then Some late_lines
       else None;
     exec_module := fun p =>
       if is_file p EXAMPLES_DIR "aux/echo.py" then Ok echo_module
       else if is_file p MODULE_DIR "bare.py" then Ok bare_module
       else if is_file p MODULE_DIR "quiet.py" then Ok quiet_module
       else if is_file p MODULE_DIR "need.py" then Ok need_module
       else if is_file p MODULE_DIR "spaced.py" then Ok spaced_module
       else if is_file p MODULE_DIR "late.py" then Ok late_module
       else Raise (Exception (lit "Permission denied")) |}.

(** The engine as it starts on this installation. *)
Definition start : LazyFramework.t := LazyFramework.init env.

End Demo.

(** Sessions on that installation. *)
Module DemoSessions.

(** [use aux/echo.py], then [set MSG hi there]. *)
Definition echo_loaded : LazyFramework.t :=
  state_of (LazyFramework.cmd_use Demo.env [lit "aux/echo.py"] Demo.start).

Definition echo_sets : list (list str) := [[lit "MSG"; lit "hi"; lit "there"]].

Definition echo_configured : LazyFramework.t := after_sets echo_sets echo_loaded.

(** The registry and its search index on this installation. *)
Definition index : Search.t :=
  Search.mk (LazyFramework.modules Demo.start)
            (LazyFramework.metadata Demo.start).

Definition echo_instance : ModuleInstance.t :=
  ModuleInstance.mk (lit "examples/aux/echo.py") Demo.echo_module
    [(lit "MSG", PyStr [])].



(** [use need.py] *)
Definition need_loaded : LazyFramework.t :=
  state_of (LazyFramework.cmd_use Demo.env [lit "need.py"] Demo.start).

Definition need_instance : ModuleInstance.t :=
  ModuleInstance.mk (lit "modules/need.py") Demo.need_module [].

(** [use late.py], then [set MSG y]. *)
Definition late_loaded : LazyFramework.t :=
  state_of (LazyFramework.cmd_use Demo.env [lit "late.py"] Demo.start).

Definition late_configured : LazyFramework.t :=
  after_sets [[lit "MSG"; lit "y"]] late_loaded.

End DemoSessions.

(** One turn of the scan, on a discovered file. *)
Definition scan_step (env : Env) (s : LazyFramework.t)
  (d : (Root * str) * str) : LazyFramework.t :=
  LazyFramework.scan_file env (fst d) s (snd d).

Module DemoFiles.

Definition locked : (Root * str) * str :=
  ((MODULE_DIR, lit "modules"), lit "locked.py").
Definition bare : (Root * str) * str :=
  ((MODULE_DIR, lit "modules"), lit "bare.py").
Definition quiet : (Root * str) * str :=
  ((MODULE_DIR, lit "modules"), lit "quiet.py").
Definition spaced : (Root * str) * str :=
  ((MODULE_DIR, lit "modules"), lit "spaced.py").

Definition late : (Root * str) * str :=
  ((MODULE_DIR, lit "modules"), lit "late.py").

(** The block of the declaration in modules/spaced.py: up to the first
    closing brace, and up to the matching one. *)
Definition spaced_block : str :=
  Demo.dq "PORT" ++ lit " : {" ++ Demo.dq "default" ++ lit ": " ++ Demo.dq "80".

Definition spaced_outer_block : str :=
  spaced_block ++ lit "}, " ++ Demo.dq "HOST" ++ lit ": {"
  ++ Demo.dq "default" ++ lit ": " ++ Demo.dq "localhost" ++ lit "}".

End DemoFiles.

(* ================================================================== *)
(** * The listing commands

    [cmd_show] and [cmd_options], with the formatting and the sorting of
    the interpreter they rely on. *)
(* ================================================================== *)

From Stdlib Require Import Sorted Permutation.

Module Fmt.

Definition blank : char := 32%N.

(** [format(s, "<width>")] for a [str]: the string, padded on the right
    with blanks up to the width, never cut. *)
Definition ljust (width : nat) (s : str) : str :=
  s ++ repeat blank (width - length s).

(** The same for a number: padded on the left. *)
Definition rjust (width : nat) (s : str) : str :=
  repeat blank (width - length s) ++ s.

(** [str(z)] for an [int]: its decimal digits, after a minus sign if it is
    negative. *)
Definition str_of_int (z : Z) : str := lit (NilZero.string_of_int (Z.to_int z)).

(** [str(v)], which is also [format(v, "")]. *)
Definition py_str (v : pyval) : str :=
  match v with
  | PyNone => lit "None"
  | PyBool true => lit "True"
  | PyBool false => lit "False"
  | PyInt z => str_of_int z
  | PyStr s => s
  | PyObject _ text _ => text
  end.

(** [bool(v)] *)
Definition truthy (v : pyval) : bool :=
  match v with
  | PyNone => false
  | PyBool b => b
  | PyInt z => negb (Z.eqb z 0)
  | PyStr [] => false
  | PyStr (_ :: _) => true
  | PyObject _ _ truth => truth
  end.

(** The class of a value that takes its [__format__] from [object], which
    accepts no format specification: [None], and the objects of
    [PyObject]. *)
Definition unformattable (v : pyval) : option str :=
  match v with
  | PyNone => Some (lit "NoneType")
  | PyObject class_name _ _ => Some class_name
  | _ => None
  end.

(** The message of the [TypeError] that [format(v, "10")] raises for a
    value of such a class. *)
Definition no_format_for (class_name : str) : str :=
  lit "unsupported format string passed to " ++ class_name
  ++ lit ".__format__".

(** [format(v, "<width>")]: a [str] is padded on the right, a number on
    the left, a [bool] being formatted as the integer it is; [None] and
    the objects of [PyObject] raise. *)
Definition format_width (width : nat) (v : pyval) : result str :=
  match v with
  | PyNone => Raise (Exception (no_format_for (lit "NoneType")))
  | PyBool b => Ok (rjust width (lit (if b then "1" else "0")))
  | PyInt z => Ok (rjust width (str_of_int z))
  | PyStr s => Ok (ljust width s)
  | PyObject class_name _ _ => Raise (Exception (no_format_for class_name))
  end.

(** [a < b] on [str]: the order of the code points, a proper prefix first. *)
Fixpoint str_ltb (a b : str) : bool :=
  match a, b with
  | _, [] => false
  | [], _ :: _ => true
  | x :: a', y :: b' => N.ltb x y || (N.eqb x y && str_ltb a' b')
  end.

(** [sorted(d.items())]: the items in ascending order of their keys.  The
    keys of a dict differ, so the values are never compared; an item goes
    in front of the first one whose key is not smaller. *)
Fixpoint insert {V} (kv : str * V) (l : list (str * V)) : list (str * V) :=
  match l with
  | [] => [kv]
  | x :: l' =>
      if str_ltb (fst x) (fst kv) then x :: insert kv l' else kv :: l
  end.

Definition sorted {V} (l : list (str * V)) : list (str * V) :=
  fold_right insert [] l.

End Fmt.

(** [for x in l: body x] *)
Fixpoint for_each {S A} (l : list A) (body : A -> M S unit) : M S unit :=
  match l with
  | [] => ret tt
  | x :: l' => (body x ;; for_each l' body)%py
  end.

(** The outcome of a computation that touches no state. *)
Definition lift {S A} (r : result A) : M S A :=
  match r with
  | Ok a => ret a
  | Raise e => raise e
  end.

Module Listing.

Import Fmt.

(** The line [cmd_show] prints for one entry of the metadata map. *)
Definition show_line (kv : str * Meta) : str :=
  lit "  " ++ ljust 40 (fst kv) ++ lit " " ++ description (snd kv).

Definition cmd_show (args : list str) : M LazyFramework.t unit :=
  (print [PS (lit "Available modules:")] ;;
   self <- get_state ;;
   for_each (sorted (items (LazyFramework.metadata self)))
     (fun kv => print [PS (show_line kv)]))%py.

(** The line [cmd_options] prints for the entry [v] of option [k]: the
    f-string formats its fields from left to right, and the value is the
    one that can fail. *)
Definition options_line (k : str) (v : dict pyval) : result str :=
  match get v (lit "value") with
  | None => Raise (KeyError (lit "value"))
  | Some value =>
      match format_width 10 value with
      | Raise e => Raise e
      | Ok current =>
          Ok (lit "  " ++ ljust 12 k ++ lit " " ++ current ++ lit " "
              ++ ljust 10
                   (lit (if match get v (lit "required") with
                            | Some r => truthy r
                            | None => false
                            end
                         then "yes" else "no"))
              ++ lit " "
              ++ match get v (lit "description") with
                 | Some d => py_str d
                 | None => []
                 end)
      end
  end.

(** The option [kv] of the schema has, in the session [inst], a current
    value that cannot be formatted. *)
Definition cannot_format (inst : ModuleInstance.t) (kv : str * option_meta)
  : bool :=
  match unformattable (ModuleInstance.current_value inst (fst kv) (snd kv)) with
  | Some _ => true
  | None => false
  end.

Definition options_header : str :=
  lit "  Name         Current    Required    Description".

Definition cmd_options (args : list str) : M LazyFramework.t unit :=
  (self <- get_state ;;
   match LazyFramework.loaded_module self with
   | None => print [PS (lit "No module loaded.")]
   | Some inst =>
       print [PS (lit "Options for " ++ ModuleInstance.name inst ++ lit ":")] ;;
       print [PS options_header] ;;
       d <- LazyFramework.on_loaded inst ModuleInstance.get_options ;;
       for_each (items d)
         (fun kv =>
            line <- lift (options_line (fst kv) (snd kv)) ;;
            print [PS line])
   end)%py.

End Listing.

(* ================================================================== *)
(** * The banners *)
(* ================================================================== *)

Module Banner.

(** The banner folder: the names of its text files in the order
    [sorted(BANNER_DIR.glob(...))] gives them, and [p.read_text(...)] for
    each, [None] when it raises. *)
Record Folder := {
  txt_files : list str;
  read_text : str -> option str
}.

(** [s.rstrip()]: without the blanks at its end. *)
Definition rstrip (s : str) : str := rev (snd (span space (rev s))).

Definition fallback : str := lit "Lazy Framework" ++ [10%N].

(** The value [load_banners_from_folder] leaves in [_loaded_banners],
    once the folder is there: the list is started anew, a file that
    raises is passed over, and so is one with nothing but blanks. *)
Definition load_banners_from_folder (f : Folder) : list str :=
  let loaded :=
    flat_map
      (fun p =>
         match read_text f p with
         | None => []
         | Some text =>
             match rstrip text with
             | [] => []
             | t => [t ++ [10%N; 10%N]]
             end
         end)
      (txt_files f) in
  match loaded with
  | [] => [fallback]
  | _ => loaded
  end.

End Banner.

(* ================================================================== *)
(** * Commands in sequence *)
(* ================================================================== *)

(** The commands of the shell that are modelled, with their arguments. *)
Inductive command :=
| Use (args : list str)
| SetOption (args : list str)
| Run (args : list str)
| Back (args : list str)
| Scan (args : list str)
| SearchFor (args : list str)
| Show (args : list str)
| Options (args : list str).

Definition execute (env : Env) (c : command) : M LazyFramework.t unit :=
  match c with
  | Use args => LazyFramework.cmd_use env args
  | SetOption args => LazyFramework.cmd_set args
  | Run args => LazyFramework.cmd_run args
  | Back args => LazyFramework.cmd_back args
  | Scan args => LazyFramework.cmd_scan env args
  | SearchFor args => LazyFramework.cmd_search env args
  | Show args => Listing.cmd_show args
  | Options args => Listing.cmd_options args
  end.

(** The states the engine can be in: it starts by a scan, and each command
    finds the files as they are at that moment. *)
Inductive reachable : LazyFramework.t -> Prop :=
| reachable_init env : reachable (LazyFramework.init env)
| reachable_step env c s :
    reachable s -> reachable (state_of (execute env c s)).

(** The states a sequence of commands reaches from [s0]. *)
Inductive reachable_from (s0 : LazyFramework.t) : LazyFramework.t -> Prop :=
| reachable_from_here : reachable_from s0 s0
| reachable_from_step env c s :
    reachable_from s0 s -> reachable_from s0 (state_of (execute env c s)).

(** A key with one of the two prefixes. *)
Definition prefixed (key : str) : bool :=
  startswith key (lit "modules/") || startswith key (lit "examples/").

(** The key of a file under a root, as a user types it: its relative path
    with slashes. *)
Definition typed_path (env : Env) (d : (Root * str) * str) : str :=
  replace (snd d) (sep env) (lit "/").

Module DemoMore.

(** A module whose entry point empties the options it is given, leaves a
    mark in the session context and raises. *)
Definition crash_run : run_fn :=
  fun session options =>
    (Raise (Exception (lit "boom")),
     set session (lit "seen") (PyBool true), []).

Definition crash_module : PyModule :=
  {| OPTIONS_items := Some [(lit "MSG", [(lit "default", PyStr (lit "x"))])];
     run_attr := Some crash_run |}.

Definition crash_instance : ModuleInstance.t :=
  ModuleInstance.mk (lit "modules/crash.py") crash_module
    [(lit "MSG", PyStr (lit "x"))].

Definition crash_loaded : LazyFramework.t :=
  LazyFramework.with_loaded_module Demo.start (Some crash_instance).

(** A banner folder with a banner, a blank file and a file that cannot be
    read. *)
Definition folder : Banner.Folder :=
  {| Banner.txt_files := [lit "a.txt"; lit "blank.txt"; lit "locked.txt"];
     Banner.read_text := fun p =>
       if str_eq_dec p (lit "a.txt")
       then Some (lit "LZF  " ++ [10%N; 10%N; 10%N])
       else if str_eq_dec p (lit "blank.txt") then Some (lit "   " ++ [10%N])
       else None |}.

(** A schema entry with a field of its own called [value]. *)

Definition shadow_module : PyModule :=
  {| OPTIONS_items :=
       Some [(lit "MODE", [(lit "value", PyStr (lit "fixed"));
                           (lit "default", PyStr (lit "fast"))])];
     run_attr := Some Demo.pass |}.

(** The session of a module whose option PORTS has a list for default,
    [[80, 443]], after [use]. *)
Definition ports_module : PyModule :=
  {| OPTIONS_items :=
       Some [(lit "HOST", [(lit "default", PyStr (lit "localhost"))]);
             (lit "PORTS",
              [(lit "default", PyObject (lit "list") (lit "[80, 443]") true)])];
     run_attr := Some Demo.pass |}.

Definition ports_schema : dict (dict pyval) :=
  [(lit "HOST", [(lit "default", PyStr (lit "localhost"))]);
   (lit "PORTS",
    [(lit "default", PyObject (lit "list") (lit "[80, 443]") true)])].

Definition ports_instance : ModuleInstance.t :=
  ModuleInstance.mk (lit "modules/ports.py") ports_module
    [(lit "HOST", PyStr (lit "localhost"));
     (lit "PORTS", PyObject (lit "list") (lit "[80, 443]") true)].

Definition ports_loaded : LazyFramework.t :=
  LazyFramework.with_loaded_module Demo.start (Some ports_instance).

Definition shadow_instance : ModuleInstance.t :=
  ModuleInstance.mk (lit "modules/shadow.py") shadow_module
    [(lit "MODE", PyStr (lit "slow"))].

End DemoMore.

(* ================================================================== *)
(** * The command loop

    [repl] reads lines, splits each with [shlex.split] and hands the words
    to the command they name. *)
(* ================================================================== *)

Module Shlex.

(** The characters of the lexer: its blanks (space, tab, carriage return,
    newline), the two quotation marks, the backslash. *)
Definition whitespace (c : char) : bool :=
  N.eqb c 32 || N.eqb c 9 || N.eqb c 13 || N.eqb c 10.
Definition escape : char := 92%N.

(** The state of the lexer between two characters: between words, in a
    word, in a quotation opened by [q], or after a backslash met in a
    word ([Escape None]) or in a double quotation ([Escape (Some q)]). *)
Inductive state :=
| Between
| Word
| Quoted (q : char)
| Escape (back : option char).

Definition no_closing_quotation : exn := Exception (lit "No closing quotation").
Definition no_escaped_character : exn := Exception (lit "No escaped character").

Definition cons_token (t : str) (r : result (list str)) : result (list str) :=
  match r with
  | Ok l => Ok (t :: l)
  | Raise e => Raise e
  end.

(** The tokens of the rest [s] of the line, [token] being the characters
    of the current word and [quoted] telling whether a quotation has been
    opened in it (a quoted word may be empty). *)
Fixpoint tokens (st : state) (quoted : bool) (token : str) (s : str)
  : result (list str) :=
  match st, s with
  | Between, [] => Ok []
  | Between, c :: s' =>
      if whitespace c then tokens Between false [] s'
      else if N.eqb c escape then tokens (Escape None) false [] s'
      else if quote c then tokens (Quoted c) true [] s'
      else tokens Word false [c] s'
  | Word, [] =>
      match token, quoted with
      | [], false => Ok []
      | _, _ => Ok [token]
      end
  | Word, c :: s' =>
      if whitespace c then
        match token, quoted with
        | [], false => tokens Between false [] s'
        | _, _ => cons_token token (tokens Between false [] s')
        end
      else if quote c then tokens (Quoted c) true token s'
      else if N.eqb c escape then tokens (Escape None) quoted token s'
      else tokens Word quoted (token ++ [c]) s'
  | Quoted q, [] => Raise no_closing_quotation
  | Quoted q, c :: s' =>
      if N.eqb c q then tokens Word true token s'
      else if N.eqb c escape && N.eqb q 34
      then tokens (Escape (Some q)) true token s'
      else tokens (Quoted q) true (token ++ [c]) s'
  | Escape _, [] => Raise no_escaped_character
  | Escape None, c :: s' => tokens Word quoted (token ++ [c]) s'
  | Escape (Some q), c :: s' =>
      if negb (N.eqb c escape) && negb (N.eqb c q)
      then tokens (Quoted q) true (token ++ [escape; c]) s'
      else tokens (Quoted q) true (token ++ [c]) s'
  end.

(** A word is under way. *)
Definition pending (st : state) (quoted : bool) (token : str) : Prop :=
  match st with
  | Between => False
  | Word => token <> [] \/ quoted = true
  | _ => True
  end.

(** [shlex.split(line)] *)
Definition split (line : str) : result (list str) := tokens Between false [] line.

End Shlex.

Module Repl.

(** [line.strip()]: without the blanks at its two ends. *)
Definition strip (s : str) : str := Banner.rstrip (snd (span space s)).

(** The commands of the shell that are not modelled: the help, the banner
    commands, and the three that go to the operating system. *)
Definition external_names : list str :=
  [lit "help"; lit "banner"; lit "cd"; lit "ls"; lit "clear"].

Definition index_out_of_range : exn := Exception (lit "list index out of range").

Section WithExternals.

(** What the commands that are not modelled do, and the banner that
    [get_random_banner] returns. *)
Variable external : str -> list str -> M LazyFramework.t unit.
Variable banner : str.

(** [getattr(self, "cmd_" + cmd, lambda a: print("Unknown command"))] *)
Definition command_named (env : Env) (cmd : str)
  : list str -> M LazyFramework.t unit :=
  if str_eq_dec cmd (lit "show") then Listing.cmd_show
  else if str_eq_dec cmd (lit "use") then LazyFramework.cmd_use env
  else if str_eq_dec cmd (lit "options") then Listing.cmd_options
  else if str_eq_dec cmd (lit "set") then LazyFramework.cmd_set
  else if str_eq_dec cmd (lit "run") then LazyFramework.cmd_run
  else if str_eq_dec cmd (lit "back") then LazyFramework.cmd_back
  else if str_eq_dec cmd (lit "scan") then LazyFramework.cmd_scan env
  else if str_eq_dec cmd (lit "search") then LazyFramework.cmd_search env
  else if in_dec str_eq_dec cmd external_names then external cmd
  else fun _ => print [PS (lit "Unknown command")].

(** The loop of [repl] over the lines that [input] returns, each with the
    files as they are when it is read; at the end of the list [input]
    raises [EOFError] or [KeyboardInterrupt].  The prompts are written by
    [input] and are not part of the trace. *)
Fixpoint loop (inputs : list (Env * str)) : M LazyFramework.t unit :=
  match inputs with
  | [] => print []
  | (env, line) :: rest =>
      match strip line with
      | [] => loop rest
      | _ =>
          (parts <- lift (Shlex.split line) ;;
           match parts with
           | [] => raise index_out_of_range
           | cmd :: args =>
               if str_eq_dec cmd (lit "exit") then ret tt
               else if str_eq_dec cmd (lit "quit") then ret tt
               else (command_named env cmd args ;; loop rest)
           end)%py
      end
  end.

(** [repl]: the two greeting lines (the banner is printed without a line
    end of its own), then the loop. *)
Definition repl (inputs : list (Env * str)) : M LazyFramework.t unit :=
  (print [PS (lit "Lazy Framework type 'help' for commands")] ;;
   print [PS banner] ;;
   loop inputs)%py.

End WithExternals.

(** A character with no meaning of its own on a line: no blank (those of
    [str.strip], the lexer's among them), no quotation mark, no
    backslash. *)
Definition plain (c : char) : bool :=
  negb (space c) && negb (quote c) && negb (N.eqb c Shlex.escape).

(** A word typed as it is: not empty, and of plain characters. *)
Definition plain_word (w : str) : Prop :=
  w <> [] /\ Forall (fun c => plain c = true) w.

End Repl.

Module DemoRepl.

(** Commands of the operating system that do nothing, and a session of
    three lines. *)
Definition no_externals : str -> list str -> M LazyFramework.t unit :=
  fun _ _ => ret tt.

Definition typed : list (Env * str) :=
  [(Demo.env, lit "use aux/echo.py");
   (Demo.env, lit "  set MSG 'hi there' ");
   (Demo.env, lit "run")].

End DemoRepl.

(* ================================================================== *)
(** * Properties: text and dictionaries *)
(* ================================================================== *)

Section StrFacts.

Lemma strip_prefix_refl (s : str) : strip_prefix s s = Some [].
Proof.
  induction s as [|c s IH]; simpl; [reflexivity|].
  now rewrite N.eqb_refl.
Qed.

Lemma strip_prefix_app (p s : str) : strip_prefix p (p ++ s) = Some s.
Proof.
  induction p as [|c p IH]; simpl; [reflexivity|].
  now rewrite N.eqb_refl.
Qed.

Lemma strip_prefix_Some (p s r : str) :
  strip_prefix p s = Some r -> s = p ++ r.
Proof.
  revert s; induction p as [|c p IH]; intros s H; simpl in *.
  - now inversion H.
  - destruct s as [|d s]; [discriminate|].
    destruct (N.eqb_spec c d); [|discriminate].
    subst d. f_equal. now apply IH.
Qed.

Lemma startswith_refl (s : str) : startswith s s = true.
Proof. unfold startswith. now rewrite strip_prefix_refl. Qed.

Lemma startswith_nil (s : str) : startswith s [] = true.
Proof. reflexivity. Qed.

(** [s in s], and the empty string is in every string. *)
Lemma contains_refl (s : str) : contains s s = true.
Proof. destruct s; simpl; [reflexivity|]; now rewrite startswith_refl. Qed.

Lemma contains_nil (s : str) : contains s [] = true.
Proof. destruct s; reflexivity. Qed.

Lemma span_app (p : char -> bool) (s : str) :
  fst (span p s) ++ snd (span p s) = s.
Proof.
  induction s as [|c s IH]; simpl; [reflexivity|].
  destruct (p c); simpl; [|reflexivity].
  destruct (span p s); simpl in *. now rewrite IH.
Qed.

Lemma span_all (p : char -> bool) (s : str) :
  Forall (fun c => p c = true) (fst (span p s)).
Proof.
  induction s as [|c s IH]; simpl; [constructor|].
  destruct (p c) eqn:E; simpl; [|constructor].
  destruct (span p s); simpl in *. now constructor.
Qed.

Lemma span_stop (p : char -> bool) (s : str) :
  match snd (span p s) with
  | c :: _ => p c = false
  | [] => True
  end.
Proof.
  induction s as [|c s IH]; simpl; [exact I|].
  destruct (p c) eqn:E; simpl; [|exact E].
  destruct (span p s); simpl in *. exact IH.
Qed.

(** A run followed by a character outside the class is the span. *)
Lemma span_run (p : char -> bool) (a : str) (c : char) (s : str) :
  Forall (fun x => p x = true) a -> p c = false ->
  span p (a ++ c :: s) = (a, c :: s).
Proof.
  intros Ha Hc. induction Ha as [|x a Hx _ IH]; simpl.
  - now rewrite Hc.
  - now rewrite Hx, IH.
Qed.

Lemma replace_same (s : str) (c : char) : replace s c [c] = s.
Proof.
  unfold replace. induction s as [|d s IH]; simpl; [reflexivity|].
  destruct (N.eqb_spec d c); subst; simpl; now rewrite IH.
Qed.

(** Replacing [old] by the one character [new] loses nothing on strings
    that do not contain [new]. *)
Lemma replace_inj (old new : char) (a b : str) :
  ~ In new a -> ~ In new b ->
  replace a old [new] = replace b old [new] -> a = b.
Proof.
  unfold replace. revert b.
  induction a as [|x a IH]; intros [|y b] Ha Hb H; simpl in *;
    try reflexivity.
  - destruct (N.eqb y old); discriminate.
  - destruct (N.eqb x old); discriminate.
  - assert (x = y) as ->.
    { destruct (N.eqb_spec x old), (N.eqb_spec y old); simpl in H;
        inversion H; subst; try congruence; exfalso; tauto. }
    f_equal. apply IH; [tauto|tauto|].
    destruct (N.eqb y old); simpl in H; now inversion H.
Qed.

End StrFacts.

Section DictFacts.
Context {V : Type}.
Implicit Types (d : dict V) (k : str) (v : V).

Lemma get_set_eq d k v : get (set d k v) k = Some v.
Proof.
  induction d as [|[k' v'] d IH]; simpl.
  - destruct (str_eq_dec k k); [reflexivity|congruence].
  - destruct (str_eq_dec k k') as [->|Hne]; simpl.
    + destruct (str_eq_dec k' k'); [reflexivity|congruence].
    + destruct (str_eq_dec k k'); [congruence|exact IH].
Qed.

Lemma get_set_ne d k k' v : k <> k' -> get (set d k v) k' = get d k'.
Proof.
  intros Hne. induction d as [|[k0 v0] d IH]; simpl.
  - destruct (str_eq_dec k' k); [congruence|reflexivity].
  - destruct (str_eq_dec k k0) as [->|Hk]; simpl.
    + destruct (str_eq_dec k' k0); [congruence|reflexivity].
    + destruct (str_eq_dec k' k0); [reflexivity|exact IH].
Qed.

Lemma get_None_keys d k : get d k = None <-> ~ In k (keys d).
Proof.
  induction d as [|[k' v'] d IH]; simpl; [tauto|].
  destruct (str_eq_dec k k') as [->|Hne].
  - split; [discriminate|tauto].
  - rewrite IH. split; [intros H [E|E]; [congruence|tauto]|tauto].
Qed.

Lemma mem_keys d k : mem k d = true <-> In k (keys d).
Proof.
  unfold mem. destruct (get d k) eqn:E.
  - split; [intros _|reflexivity].
    destruct (in_dec str_eq_dec k (keys d)) as [H|H]; [exact H|].
    apply get_None_keys in H. congruence.
  - apply get_None_keys in E. split; [discriminate|tauto].
Qed.

Lemma keys_set_old d k v : In k (keys d) -> keys (set d k v) = keys d.
Proof.
  induction d as [|[k' v'] d IH]; simpl; [tauto|].
  intros H. destruct (str_eq_dec k k') as [->|Hne]; simpl; [reflexivity|].
  f_equal. apply IH. destruct H; [congruence|assumption].
Qed.

Lemma keys_set_new d k v : ~ In k (keys d) -> keys (set d k v) = keys d ++ [k].
Proof.
  induction d as [|[k' v'] d IH]; simpl; [reflexivity|].
  intros H. destruct (str_eq_dec k k') as [->|Hne]; simpl; [tauto|].
  f_equal. apply IH. tauto.
Qed.

Lemma keys_set d k v :
  keys (set d k v) = if mem k d then keys d else keys d ++ [k].
Proof.
  destruct (mem k d) eqn:E.
  - apply keys_set_old, mem_keys, E.
  - apply keys_set_new. intros H. apply mem_keys in H. congruence.
Qed.

Lemma NoDup_keys_set d k v : NoDup (keys d) -> NoDup (keys (set d k v)).
Proof.
  intros H. rewrite keys_set. destruct (mem k d) eqn:E; [exact H|].
  apply NoDup_app; [exact H|repeat constructor; simpl; tauto|].
  intros x Hx [<-|[]]. apply mem_keys in Hx. congruence.
Qed.

Lemma NoDup_keys_update (a b : dict V) :
  NoDup (keys a) -> NoDup (keys (update a b)).
Proof.
  unfold update. revert a.
  induction b as [|[k v] b IH]; intros a H; simpl; [exact H|].
  apply IH, NoDup_keys_set, H.
Qed.

Lemma NoDup_keys_of_items (l : list (str * V)) : NoDup (keys (of_items l)).
Proof. apply (NoDup_keys_update [] l). constructor. Qed.

(** Assigning items with distinct keys appends them in order. *)
Lemma update_distinct (a b : dict V) :
  NoDup (keys a ++ keys b) -> update a b = a ++ b.
Proof.
  unfold update. revert a.
  induction b as [|[k v] b IH]; intros a H; simpl.
  - now rewrite app_nil_r.
  - assert (Hk : ~ In k (keys a)).
    { intros Hin. apply NoDup_remove_2 in H. apply H.
      apply in_or_app. now left. }
    assert (Hs : set a k v = a ++ [(k, v)]).
    { clear -Hk. induction a as [|[k' v'] a IHa]; simpl in *; [reflexivity|].
      destruct (str_eq_dec k k'); [subst; tauto|].
      f_equal. apply IHa. tauto. }
    rewrite Hs, IH.
    + now rewrite <- app_assoc.
    + unfold keys in *. rewrite map_app. simpl. now rewrite <- app_assoc.
Qed.

Lemma of_items_distinct (l : list (str * V)) :
  NoDup (keys l) -> of_items l = l.
Proof. intros H. apply (update_distinct [] l). exact H. Qed.

Lemma get_In d k v : NoDup (keys d) -> In (k, v) d -> get d k = Some v.
Proof.
  induction d as [|[k' v'] d IH]; simpl; [tauto|].
  intros Hnd [E|Hin].
  - inversion E; subst. destruct (str_eq_dec k k); [reflexivity|congruence].
  - inversion Hnd; subst.
    destruct (str_eq_dec k k') as [->|Hne]; [|now apply IH].
    exfalso. apply H1. change (In (fst (k', v)) (map fst d)).
    now apply in_map.
Qed.

Lemma get_Some_In d k v : get d k = Some v -> In (k, v) d.
Proof.
  induction d as [|[k' v'] d IH]; simpl; [discriminate|].
  destruct (str_eq_dec k k') as [->|Hne].
  - intros E; inversion E; now left.
  - intros E; right; now apply IH.
Qed.

End DictFacts.

(* ================================================================== *)
(** * Properties: the pattern matcher *)
(* ================================================================== *)

Section ReFacts.

Import Re.
Implicit Types (p q : char -> bool) (r : regex) (t : str) (i : bool).

Lemma exec_One p r c t i :
  exec (One p :: r) (c :: t) i
  = if p c then option_map (consume i c) (exec r t i) else None.
Proof. reflexivity. Qed.

Lemma exec_One_nil p r i : exec (One p :: r) [] i = None.
Proof. reflexivity. Qed.

Lemma exec_Open r t i : exec (Open :: r) t i = exec r t true.
Proof. reflexivity. Qed.

Lemma exec_Close r t i : exec (Close :: r) t i = exec r t false.
Proof. reflexivity. Qed.

Lemma exec_Star_nil p r i : exec (Star p :: r) [] i = exec r [] i.
Proof. reflexivity. Qed.

Lemma exec_Star_cons p r c t i :
  exec (Star p :: r) (c :: t) i
  = if p c
    then match exec (Star p :: r) t i with
         | Some m => Some (consume i c m)
         | None => exec r (c :: t) i
         end
    else exec r (c :: t) i.
Proof. reflexivity. Qed.

Lemma exec_Plus p r t i :
  exec (Plus p :: r) t i = exec (One p :: Star p :: r) t i.
Proof. destruct t; reflexivity. Qed.

Lemma option_map_id {A} (f : A -> A) (x : option A) :
  (forall a, f a = a) -> option_map f x = x.
Proof. intros H. destruct x; simpl; [now rewrite H|reflexivity]. Qed.

Lemma consume_all_false run m : consume_all false run m = m.
Proof. induction run; simpl; [reflexivity|exact IHrun]. Qed.

Lemma consume_all_true run g a :
  consume_all true run (Matched g a) = Matched (run ++ g) a.
Proof. induction run; simpl; [reflexivity|now rewrite IHrun]. Qed.

(** A greedy repetition whose continuation cannot start with a character
    of the class never gives a character back: it takes the whole run. *)
Lemma exec_Star_greedy p r i :
  (forall c t, p c = true -> exec r (c :: t) i = None) ->
  forall t,
    exec (Star p :: r) t i
    = option_map (consume_all i (fst (span p t))) (exec r (snd (span p t)) i).
Proof.
  intros Hr. induction t as [|c t IH].
  - rewrite exec_Star_nil. simpl. now destruct (exec r [] i).
  - rewrite exec_Star_cons. simpl span. destruct (p c) eqn:E.
    + rewrite IH. destruct (span p t) as [a b]; simpl.
      destruct (exec r b i); simpl; [reflexivity|]. now apply Hr.
    + simpl. now destruct (exec r (c :: t) i).
Qed.

Lemma exec_Plus_greedy p r i :
  (forall c t, p c = true -> exec r (c :: t) i = None) ->
  forall t,
    exec (Plus p :: r) t i
    = match fst (span p t) with
      | [] => None
      | run => option_map (consume_all i run) (exec r (snd (span p t)) i)
      end.
Proof.
  intros Hr t. rewrite exec_Plus. destruct t as [|c t]; [reflexivity|].
  rewrite exec_One. simpl span. destruct (p c) eqn:E; [|reflexivity].
  rewrite (exec_Star_greedy p r i Hr).
  destruct (span p t) as [a b]; simpl.
  now destruct (exec r b i).
Qed.

(** Outside the group, a literal prefix is stripped ... *)
Lemma exec_chars (s : str) r t :
  exec (map (fun c => One (just c)) s ++ r) t false
  = match strip_prefix s t with
    | Some t' => exec r t' false
    | None => None
    end.
Proof.
  revert t. induction s as [|c s IH]; intros t; simpl app; [reflexivity|].
  destruct t as [|d t]; [reflexivity|].
  rewrite exec_One. simpl strip_prefix. unfold just at 1.
  destruct (N.eqb c d); [|reflexivity].
  rewrite IH. apply option_map_id. reflexivity.
Qed.

(** ... a literal character is expected ... *)
Lemma exec_expect (c : char) r t :
  exec (One (just c) :: r) t false
  = match Spec.expect c t with
    | Some t' => exec r t' false
    | None => None
    end.
Proof.
  destruct t as [|d t]; [reflexivity|].
  rewrite exec_One. unfold just, Spec.expect.
  destruct (N.eqb c d); [|reflexivity].
  apply option_map_id. reflexivity.
Qed.

(** ... and so is a quotation mark. *)
Lemma exec_expect_quote r t :
  exec (One quote :: r) t false
  = match Spec.expect_quote t with
    | Some t' => exec r t' false
    | None => None
    end.
Proof.
  destruct t as [|d t]; [reflexivity|].
  rewrite exec_One. unfold Spec.expect_quote.
  destruct (quote d); [|reflexivity].
  apply option_map_id. reflexivity.
Qed.

(** The classes, as ranges of code points. *)
Lemma quote_spec c : quote c = true <-> (c = 39 \/ c = 34)%N.
Proof.
  unfold quote, just. rewrite orb_true_iff, !N.eqb_eq.
  split; intros [H|H]; auto.
Qed.

Lemma word_spec c :
  word c = true
  <-> (65 <= c <= 90 \/ 97 <= c <= 122 \/ 48 <= c <= 57 \/ c = 95)%N.
Proof.
  unfold word, between, just.
  change (chr "A") with 65%N. change (chr "Z") with 90%N.
  change (chr "a") with 97%N. change (chr "z") with 122%N.
  change (chr "0") with 48%N. change (chr "9") with 57%N.
  change (chr "_") with 95%N.
  rewrite !orb_true_iff, !andb_true_iff, !N.leb_le, N.eqb_eq.
  intuition auto.
Qed.

Lemma space_spec c :
  space c = true
  <-> (9 <= c <= 13 \/ 28 <= c <= 32 \/ c = 133 \/ c = 160 \/ c = 5760
       \/ 8192 <= c <= 8202 \/ c = 8232 \/ c = 8233 \/ c = 8239
       \/ c = 8287 \/ c = 12288)%N.
Proof.
  unfold space, between, just.
  rewrite !orb_true_iff, !andb_true_iff, !N.leb_le, !N.eqb_eq.
  intuition auto.
Qed.

Lemma word_not_quote c : word c = true -> quote c = false.
Proof.
  intros H. apply not_true_iff_false. intros Q.
  apply word_spec in H. apply quote_spec in Q. lia.
Qed.

Lemma space_not_quote c : space c = true -> quote c = false.
Proof.
  intros H. apply not_true_iff_false. intros Q.
  apply space_spec in H. apply quote_spec in Q. lia.
Qed.

Lemma space_not_word c : space c = true -> word c = false.
Proof.
  intros H. apply not_true_iff_false. intros Q.
  apply space_spec in H. apply word_spec in Q. lia.
Qed.

Lemma space_not_just c (x : char) :
  space x = false -> space c = true -> just x c = false.
Proof.
  intros Hx Hc. unfold just. destruct (N.eqb_spec x c); [|reflexivity].
  subst. congruence.
Qed.

End ReFacts.

(* ================================================================== *)
(** * Properties: the three patterns of the extractor

    Each pattern, run by the matcher, finds what the direct scan of the
    specification finds. *)
(* ================================================================== *)

Section PatternFacts.

Import Re LazyFramework.

Lemma exec_OPTIONS_RE t :
  exec OPTIONS_RE t false = option_map as_match (Spec.options_decl_at t).
Proof.
  unfold OPTIONS_RE, chars, Spec.options_decl_at.
  rewrite exec_chars.
  destruct (strip_prefix (lit "OPTIONS") t) as [t1|]; [|reflexivity].
  rewrite exec_Star_greedy.
  2:{ intros c u Hc. rewrite exec_One.
      now rewrite (space_not_just c (chr "=") eq_refl Hc). }
  rewrite (option_map_id (consume_all false _)) by apply consume_all_false.
  rewrite exec_expect. fold (Spec.skip_blanks t1).
  destruct (Spec.expect (chr "=") (Spec.skip_blanks t1)) as [t2|];
    [|reflexivity].
  rewrite exec_Star_greedy.
  2:{ intros c u Hc. rewrite exec_One.
      now rewrite (space_not_just c (chr "{") eq_refl Hc). }
  rewrite (option_map_id (consume_all false _)) by apply consume_all_false.
  rewrite exec_expect. fold (Spec.skip_blanks t2).
  destruct (Spec.expect (chr "{") (Spec.skip_blanks t2)) as [t3|];
    [|reflexivity].
  rewrite exec_Open, exec_Star_greedy.
  2:{ intros c u Hc. rewrite exec_Close, exec_One.
      unfold not_rbrace in Hc. now destruct (just (chr "}") c). }
  rewrite exec_Close.
  pose proof (span_stop not_rbrace t3) as Hstop.
  destruct (snd (span not_rbrace t3)) as [|d t4]; [reflexivity|].
  rewrite exec_One. unfold not_rbrace in Hstop.
  destruct (just (chr "}") d); [|discriminate].
  simpl. rewrite consume_all_true, app_nil_r. reflexivity.
Qed.

Lemma exec_NAME_RE t :
  exec NAME_RE t false = option_map as_match (Spec.quoted_name_at false t).
Proof.
  unfold NAME_RE, Spec.quoted_name_at.
  rewrite exec_expect_quote.
  destruct (Spec.expect_quote t) as [t1|]; [|reflexivity].
  rewrite exec_Open, exec_Plus_greedy.
  2:{ intros c u Hc. rewrite exec_Close, exec_One.
      now rewrite (word_not_quote c Hc). }
  destruct (fst (span word t1)) as [|c name]; [reflexivity|].
  rewrite exec_Close, exec_expect_quote.
  destruct (Spec.expect_quote (snd (span word t1))) as [t2|]; [|reflexivity].
  rewrite exec_Star_greedy.
  2:{ intros x u Hx. rewrite exec_One.
      now rewrite (space_not_just x (chr ":") eq_refl Hx). }
  rewrite (option_map_id (consume_all false _)) by apply consume_all_false.
  rewrite exec_expect. fold (Spec.skip_blanks t2).
  destruct (Spec.expect (chr ":") (Spec.skip_blanks t2)) as [t3|];
    [|reflexivity].
  simpl option_map. rewrite consume_all_true, app_nil_r. reflexivity.
Qed.

Lemma exec_DESCRIPTION_RE t :
  exec DESCRIPTION_RE t false = option_map as_match (Spec.description_at t).
Proof.
  unfold DESCRIPTION_RE, chars, Spec.description_at.
  change ([One quote] ++ ?a ++ ?b) with (One quote :: a ++ b).
  rewrite exec_expect_quote.
  destruct (Spec.expect_quote t) as [t1|]; [|reflexivity].
  rewrite exec_chars.
  destruct (strip_prefix (lit "description") t1) as [t2|]; [|reflexivity].
  rewrite exec_expect_quote.
  destruct (Spec.expect_quote t2) as [t3|]; [|reflexivity].
  rewrite exec_Star_greedy.
  2:{ intros x u Hx. rewrite exec_One.
      now rewrite (space_not_just x (chr ":") eq_refl Hx). }
  rewrite (option_map_id (consume_all false _)) by apply consume_all_false.
  rewrite exec_expect. fold (Spec.skip_blanks t3).
  destruct (Spec.expect (chr ":") (Spec.skip_blanks t3)) as [t4|];
    [|reflexivity].
  rewrite exec_Star_greedy.
  2:{ intros x u Hx. rewrite exec_One.
      now rewrite (space_not_quote x Hx). }
  rewrite (option_map_id (consume_all false _)) by apply consume_all_false.
  rewrite exec_expect_quote. fold (Spec.skip_blanks t4).
  destruct (Spec.expect_quote (Spec.skip_blanks t4)) as [t5|];
    [|reflexivity].
  rewrite exec_Open, exec_Plus_greedy.
  2:{ intros x u Hx. rewrite exec_Close, exec_One.
      unfold not_quote in Hx. now destruct (quote x). }
  pose proof (span_stop not_quote t5) as Hstop.
  destruct (fst (span not_quote t5)) as [|c value].
  { now destruct (snd (span not_quote t5)). }
  rewrite exec_Close.
  destruct (snd (span not_quote t5)) as [|d t6]; [reflexivity|].
  rewrite exec_One. unfold not_quote in Hstop.
  destruct (quote d); [|discriminate].
  simpl option_map. rewrite consume_all_true, app_nil_r. reflexivity.
Qed.

(** [re.search] with the two patterns finds the first declaration block
    and the first description field. *)
Lemma search_OPTIONS_RE t :
  option_map group1 (search OPTIONS_RE t) = Spec.options_block t.
Proof.
  induction t as [|c t IH]; cbn [search Spec.options_block];
    rewrite exec_OPTIONS_RE;
    destruct (Spec.options_decl_at _) as [[b u]|]; simpl; auto.
Qed.

Lemma search_DESCRIPTION_RE t :
  option_map group1 (search DESCRIPTION_RE t) = Spec.description_field t.
Proof.
  induction t as [|c t IH]; cbn [search Spec.description_field];
    rewrite exec_DESCRIPTION_RE;
    destruct (Spec.description_at _) as [[b u]|]; simpl; auto.
Qed.

(** [re.findall] resumes after a match; no quoted name starts inside one. *)
Lemma findall_from_skip r (mid rest : str) :
  findall_from r (mid ++ rest) (length mid) = findall_from r rest 0.
Proof.
  induction mid as [|c mid IH]; [reflexivity|exact IH].
Qed.

Lemma quoted_name_at_not_quote i c t :
  quote c = false -> Spec.quoted_name_at i (c :: t) = None.
Proof. intros H. unfold Spec.quoted_name_at; simpl. now rewrite H. Qed.

Lemma quoted_names_skip i (a s : str) :
  Forall (fun c => quote c = false) a ->
  Spec.quoted_names i (a ++ s) = Spec.quoted_names i s.
Proof.
  induction 1 as [|c a Hc _ IH]; [reflexivity|].
  cbn [app Spec.quoted_names].
  now rewrite (quoted_name_at_not_quote i c _ Hc).
Qed.

Lemma expect_Some c t u : Spec.expect c t = Some u -> t = c :: u.
Proof.
  destruct t as [|d t]; simpl; [discriminate|].
  destruct (N.eqb_spec c d); [|discriminate].
  intros E; inversion E; now subst.
Qed.

Lemma expect_quote_Some t u :
  Spec.expect_quote t = Some u -> exists q, quote q = true /\ t = q :: u.
Proof.
  destruct t as [|d t]; simpl; [discriminate|].
  destruct (quote d) eqn:Q; [|discriminate].
  intros E; inversion E; subst. now exists d.
Qed.

(** The shape of a text that starts with a quoted name and its colon. *)
Lemma quoted_name_at_inv t name u :
  Spec.quoted_name_at false t = Some (name, u) ->
  exists q q' ws,
    t = q :: name ++ q' :: ws ++ chr ":" :: u
    /\ quote q = true /\ quote q' = true
    /\ Forall (fun c => word c = true) name
    /\ Forall (fun c => space c = true) ws.
Proof.
  unfold Spec.quoted_name_at. intros H.
  destruct (Spec.expect_quote t) as [t1|] eqn:E1; [|discriminate].
  apply expect_quote_Some in E1 as (q & Hq & ->).
  pose proof (span_app word t1) as Happ.
  pose proof (span_all word t1) as Hall.
  destruct (fst (span word t1)) as [|c nm] eqn:Efst; [discriminate|].
  destruct (Spec.expect_quote (snd (span word t1))) as [t2|] eqn:E2;
    [|discriminate].
  apply expect_quote_Some in E2 as (q' & Hq' & E2).
  destruct (Spec.expect (chr ":") (Spec.skip_blanks t2)) as [t3|] eqn:E3;
    [|discriminate].
  apply expect_Some in E3. inversion H; subst name u; clear H.
  exists q, q', (fst (span space t2)). repeat split; auto.
  - f_equal. rewrite <- Happ, E2. do 2 f_equal.
    unfold Spec.skip_blanks in E3. rewrite <- E3. symmetry. apply span_app.
  - apply span_all.
Qed.

Lemma quoted_names_after_match q t name u :
  Spec.quoted_name_at false (q :: t) = Some (name, u) ->
  Spec.quoted_names false t = Spec.quoted_names false u
  /\ exists mid, t = mid ++ u.
Proof.
  intros H. apply quoted_name_at_inv in H
    as (q0 & q' & ws & E & _ & Hq' & Hname & Hws).
  inversion E; subst q0 t; clear E.
  change (chr ":") with 58%N. split.
  - rewrite quoted_names_skip.
    2:{ eapply Forall_impl; [|exact Hname]. apply word_not_quote. }
    assert (Hnone : Spec.quoted_name_at false
                      (q' :: ws ++ (58%N : char) :: u) = None).
    { unfold Spec.quoted_name_at. simpl Spec.expect_quote. rewrite Hq'.
      destruct ws as [|w ws]; simpl.
      - reflexivity.
      - inversion Hws; subst. now rewrite (space_not_word w). }
    cbn [Spec.quoted_names]. rewrite Hnone.
    change (ws ++ 58%N :: u) with (ws ++ [58%N] ++ u).
    rewrite app_assoc. apply quoted_names_skip.
    apply Forall_app; split.
    + eapply Forall_impl; [|exact Hws]. apply space_not_quote.
    + repeat constructor.
  - exists (name ++ q' :: ws ++ [58%N]).
    rewrite <- !app_assoc. simpl. now rewrite <- app_assoc.
Qed.

Lemma findall_NAME_RE t :
  findall NAME_RE t = Spec.quoted_names false t.
Proof.
  unfold findall.
  assert (H : forall n t, length t <= n ->
                findall_from NAME_RE t 0 = Spec.quoted_names false t).
  { clear t. induction n as [|n IH]; intros [|c t] Hlen;
      simpl in Hlen; try lia; try reflexivity.
    cbn [findall_from Spec.quoted_names]. rewrite exec_NAME_RE.
    destruct (Spec.quoted_name_at false (c :: t)) as [[name u]|] eqn:E;
      simpl.
    - apply quoted_names_after_match in E as [Hq [mid ->]].
      rewrite Hq. f_equal.
      replace (length (mid ++ u) - length u) with (length mid)
        by (rewrite length_app; lia).
      rewrite findall_from_skip. apply IH.
      rewrite length_app in Hlen. lia.
    - apply IH. lia. }
  now apply (H (length t)).
Qed.

End PatternFacts.

(* ================================================================== *)
(** * Properties: the loaded-module session *)
(* ================================================================== *)

Section SessionFacts.

Import LazyFramework.

(** Values of a dict built by assignments come from the assignments. *)
Lemma In_update_values {V} (a b : dict V) (kv : str * V) :
  In kv (update a b) -> In kv a \/ In (snd kv) (map snd b).
Proof.
  unfold update. revert a.
  induction b as [|[k v] b IH]; intros a H; simpl in *; [now left|].
  apply IH in H as [H|H]; [|now right; right].
  assert (Hs : forall d, In kv (set d k v) -> In kv d \/ snd kv = v).
  { clear. induction d as [|[k' v'] d IHd]; simpl.
    - intros [<-|[]]; now right.
    - destruct (str_eq_dec k k') as [->|Hne]; simpl.
      + intros [<-|Hin]; [now right|now left; right].
      + intros [<-|Hin]; [now left; left|].
        apply IHd in Hin as [Hin|Hin]; [now left; right|now right]. }
  apply Hs in H as [H|H]; [now left|right; left; now symmetry].
Qed.

(** The schema of a module object is a dict, and so is each entry. *)
Lemma OPTIONS_NoDup (m : PyModule) opts :
  OPTIONS m = Some opts -> NoDup (keys opts).
Proof.
  unfold OPTIONS. destruct (OPTIONS_items m); simpl; [|discriminate].
  intros E; inversion E. apply NoDup_keys_of_items.
Qed.

Lemma OPTIONS_entry_NoDup (m : PyModule) opts k meta :
  OPTIONS m = Some opts -> get opts k = Some meta -> NoDup (keys meta).
Proof.
  unfold OPTIONS. destruct (OPTIONS_items m) as [l|]; simpl; [|discriminate].
  intros E Hget; inversion E; subst opts; clear E.
  apply get_Some_In in Hget.
  apply (In_update_values [] _ (k, meta)) in Hget as [[]|Hin].
  rewrite map_map in Hin. simpl in Hin.
  apply in_map_iff in Hin as (x & <- & _). apply NoDup_keys_of_items.
Qed.

Lemma OPTIONS_empty (m : PyModule) :
  OPTIONS m = Some [] <-> OPTIONS_items m = Some [].
Proof.
  unfold OPTIONS. destruct (OPTIONS_items m) as [l|]; simpl.
  - split; intros E; inversion E; [|reflexivity].
    destruct l as [|[k v] l]; [reflexivity|exfalso].
    assert (Hk : In k (keys (of_items
              (map (fun kv => (fst kv, of_items (snd kv))) ((k, v) :: l))))).
    { unfold of_items. simpl.
      assert (G : forall (b a : dict option_meta),
                 In k (keys a) ->
                 In k (keys (fold_left
                               (fun d kv => set d (fst kv) (snd kv)) b a))).
      { induction b as [|[k' v'] b IHb]; intros a Ha; simpl; [exact Ha|].
        apply IHb. rewrite keys_set. destruct (mem k' a); [exact Ha|].
        apply in_or_app; now left. }
      apply G. simpl. now left. }
    rewrite H0 in Hk. destruct Hk.
  - split; discriminate.
Qed.

Lemma get_map_values {V W} (g : str -> V -> W) (d : dict V) k :
  get (map (fun kv => (fst kv, g (fst kv) (snd kv))) d) k
  = option_map (g k) (get d k).
Proof.
  induction d as [|[k' v'] d IH]; simpl; [reflexivity|].
  destruct (str_eq_dec k k') as [->|Hne]; [reflexivity|exact IH].
Qed.

Lemma keys_map_values {V W} (g : str -> V -> W) (d : dict V) :
  keys (map (fun kv => (fst kv, g (fst kv) (snd kv))) d) = keys d.
Proof. unfold keys. rewrite map_map. reflexivity. Qed.

(** A field that [b] does not have keeps the value it has in [a]. *)
Lemma get_update_absent {V} (a b : dict V) f :
  get b f = None -> get (update a b) f = get a f.
Proof.
  unfold update. revert a.
  induction b as [|[k v] b IH]; intros a H; simpl in *; [reflexivity|].
  destruct (str_eq_dec f k) as [->|Hne]; [discriminate|].
  rewrite IH by exact H. apply get_set_ne. congruence.
Qed.

Lemma get_update_NoDup {V} (a b : dict V) f :
  NoDup (keys b) ->
  get (update a b) f
  = match get b f with
    | Some x => Some x
    | None => get a f
    end.
Proof.
  revert a.
  induction b as [|[k v] b IH]; intros a Hnd; [reflexivity|].
  change (update a ((k, v) :: b)) with (update (set a k v) b).
  inversion Hnd as [|? ? Hk Hnd']; subst. cbn [get].
  destruct (str_eq_dec f k) as [->|Hne].
  - apply get_None_keys in Hk.
    rewrite (get_update_absent (set a k v) b k Hk). apply get_set_eq.
  - rewrite IH by exact Hnd'. destruct (get b f); [reflexivity|].
    apply get_set_ne. congruence.
Qed.

(** The loop over the schema enters exactly the declared defaults. *)
Lemma enter_defaults_get opts inst name :
  NoDup (keys opts) ->
  get (ModuleInstance.options (enter_defaults opts inst)) name
  = match declared_default opts name with
    | Some d => Some d
    | None => get (ModuleInstance.options inst) name
    end.
Proof.
  unfold enter_defaults, declared_default, items. revert inst.
  induction opts as [|[k meta] opts IH]; intros inst Hnd; simpl in *;
    [reflexivity|].
  inversion Hnd as [|? ? Hk Hnd']; subst.
  rewrite IH by exact Hnd'.
  destruct (str_eq_dec name k) as [->|Hne].
  - apply get_None_keys in Hk. rewrite Hk.
    destruct (get meta (lit "default")); simpl; [|reflexivity].
    apply get_set_eq.
  - destruct (get opts name) as [meta'|]; [destruct (get meta' _)|];
      try reflexivity;
      (destruct (get meta (lit "default")); simpl; [|reflexivity];
       apply get_set_ne; congruence).
Qed.

Lemma enter_defaults_name_module opts inst :
  ModuleInstance.name (enter_defaults opts inst) = ModuleInstance.name inst
  /\ ModuleInstance.module (enter_defaults opts inst)
     = ModuleInstance.module inst.
Proof.
  unfold enter_defaults, items. revert inst.
  induction opts as [|[k meta] opts IH]; intros inst; simpl; [now split|].
  destruct (get meta (lit "default")); [|apply IH].
  destruct (IH (ModuleInstance.with_options inst
                  (set (ModuleInstance.options inst) k p))) as [-> ->].
  now split.
Qed.

(** [cmd_use], case by case. *)
Lemma cmd_use_cases env fw key rest :
  cmd_use env (key :: rest) fw
  = let k := candidate_key fw key in
    match get (modules fw) k with
    | None => (Ok tt, fw, load_error_line (KeyError k))
    | Some p =>
        match exec_module env p with
        | Raise e => (Ok tt, fw, load_error_line e)
        | Ok m =>
            match OPTIONS m with
            | None =>
                (Ok tt, fw, load_error_line (AttributeError (lit "OPTIONS")))
            | Some opts =>
                (Ok tt,
                 with_loaded_module fw
                   (Some (enter_defaults opts (ModuleInstance.mk k m []))),
                 loaded_line k)
            end
        end
    end.
Proof.
  unfold cmd_use, import_module, ModuleInstance.module_OPTIONS,
    try_except, bind, get_state, put_state, print, raise, ret,
    load_error_line, loaded_line.
  cbv zeta.
  destruct (get (modules fw) (candidate_key fw key)) as [p|]; [|reflexivity].
  destruct (exec_module env p) as [m|e]; [|reflexivity].
  destruct (OPTIONS m) as [opts|]; reflexivity.
Qed.

(** What a [use] that reports success has done. *)
Lemma cmd_use_loaded_inv env fw key rest k :
  trace_of (cmd_use env (key :: rest) fw) = loaded_line k ->
  exists p m opts,
    k = candidate_key fw key
    /\ get (modules fw) k = Some p
    /\ exec_module env p = Ok m
    /\ OPTIONS m = Some opts
    /\ state_of (cmd_use env (key :: rest) fw)
       = with_loaded_module fw
           (Some (enter_defaults opts (ModuleInstance.mk k m []))).
Proof.
  rewrite cmd_use_cases. cbv zeta.
  destruct (get (modules fw) (candidate_key fw key)) as [p|] eqn:Hp;
    [|discriminate].
  destruct (exec_module env p) as [m|e] eqn:He; [|discriminate].
  destruct (OPTIONS m) as [opts|] eqn:Ho; [|discriminate].
  unfold trace_of, state_of, loaded_line; cbn [fst snd]. intros E.
  injection E as E'. subst k. exists p, m, opts. repeat split; auto.
Qed.

Lemma set_option_cases inst opts key value :
  OPTIONS (ModuleInstance.module inst) = Some opts ->
  ModuleInstance.set_option key value inst
  = if mem key opts
    then (Ok tt,
          ModuleInstance.with_options inst
            (set (ModuleInstance.options inst) key value), [])
    else (Raise (KeyError (lit "Unknown option '" ++ key ++ lit "'")),
          inst, []).
Proof.
  intros H.
  unfold ModuleInstance.set_option, ModuleInstance.module_OPTIONS,
    bind, get_state, put_state, raise, ret.
  rewrite H. destruct (mem key opts); reflexivity.
Qed.

Lemma with_loaded_module_same fw inst :
  loaded_module fw = Some inst -> with_loaded_module fw (Some inst) = fw.
Proof. destruct fw; simpl; intros ->; reflexivity. Qed.

Lemma cmd_set_cases fw inst opts opt w ws :
  loaded_module fw = Some inst ->
  OPTIONS (ModuleInstance.module inst) = Some opts ->
  let val := join (lit " ") (w :: ws) in
  cmd_set (opt :: w :: ws) fw
  = if mem opt opts
    then (Ok tt,
          with_loaded_module fw
            (Some (ModuleInstance.with_options inst
                     (set (ModuleInstance.options inst) opt (PyStr val)))),
          [Print [PS (opt ++ lit " => " ++ val)]])
    else (Ok tt, fw,
          [Print [PE (KeyError (lit "Unknown option '" ++ opt ++ lit "'"))]]).
Proof.
  intros Hl Ho val.
  unfold cmd_set, on_loaded, try_except, bind, get_state, print.
  rewrite Hl. fold val.
  rewrite (set_option_cases inst opts opt (PyStr val) Ho).
  destruct (mem opt opts); simpl; [reflexivity|].
  now rewrite (with_loaded_module_same fw inst Hl).
Qed.

End SessionFacts.

(* ================================================================== *)
(** * Properties: the scan *)
(* ================================================================== *)

Section ScanFacts.

Import LazyFramework.
Variable env : Env.

Lemma fold_left_flat_map {A B C} (f : A -> C -> A) (g : B -> list C)
  (l : list B) (a : A) :
  fold_left f (flat_map g l) a
  = fold_left (fun a x => fold_left f (g x) a) l a.
Proof.
  revert a. induction l as [|x l IH]; intros a; simpl; [reflexivity|].
  now rewrite fold_left_app, IH.
Qed.

Lemma fold_left_map {A B C} (f : A -> C -> A) (h : B -> C)
  (l : list B) (a : A) :
  fold_left f (map h l) a = fold_left (fun a x => f a (h x)) l a.
Proof.
  revert a. induction l as [|x l IH]; intros a; simpl; [reflexivity|].
  apply IH.
Qed.

Lemma fold_left_same {A B} (f g : A -> B -> A) (l : list B) (a : A) :
  (forall a x, f a x = g a x) -> fold_left f l a = fold_left g l a.
Proof.
  intros H. revert a. induction l as [|x l IH]; intros a; simpl;
    [reflexivity|]. now rewrite H, IH.
Qed.

(** The scan is one pass over the discovered files, from empty maps. *)
Lemma scan_modules_discovered fw :
  scan_modules env fw
  = (Ok tt, fold_left (scan_step env) (discovered env) (with_registry fw [] []),
     []).
Proof.
  unfold scan_modules, discovered. f_equal. f_equal.
  rewrite fold_left_flat_map. apply fold_left_same. intros s fp.
  now rewrite fold_left_map.
Qed.

Lemma In_discovered d :
  In d (discovered env)
  <-> In (fst d) roots /\ In (snd d) (rglob env (fst (fst d))).
Proof.
  unfold discovered. rewrite in_flat_map. split.
  - intros (fp & Hfp & Hin). apply in_map_iff in Hin as (r & <- & Hr).
    now split.
  - intros [Hfp Hr]. exists (fst d). split; [exact Hfp|].
    apply in_map_iff. exists (snd d). split; [now destruct d|exact Hr].
Qed.

Lemma mem_same_keys {V W} (a : dict V) (b : dict W) k :
  keys a = keys b -> mem k a = mem k b.
Proof.
  intros E. destruct (mem k b) eqn:Hb.
  - apply mem_keys. rewrite E. now apply mem_keys.
  - apply not_true_iff_false. intros Ha. apply mem_keys in Ha.
    rewrite E in Ha. apply mem_keys in Ha. congruence.
Qed.

(** Each turn keeps the two maps on the same keys, without repeats. *)
Lemma scan_step_keys s d :
  keys (modules s) = keys (metadata s) ->
  keys (modules (scan_step env s d)) = keys (metadata (scan_step env s d)).
Proof.
  intros E. unfold scan_step, scan_file; simpl.
  rewrite !keys_set, (mem_same_keys _ (metadata s) _ E), E. reflexivity.
Qed.

Lemma scan_step_NoDup s d :
  NoDup (keys (modules s)) -> NoDup (keys (modules (scan_step env s d))).
Proof. intros H. unfold scan_step, scan_file; simpl. now apply NoDup_keys_set. Qed.

Lemma scan_fold_keys l : forall s,
  keys (modules s) = keys (metadata s) ->
  NoDup (keys (modules s)) ->
  let s' := fold_left (scan_step env) l s in
  keys (modules s') = keys (metadata s') /\ NoDup (keys (modules s')).
Proof.
  induction l as [|d l IH]; intros s E N; simpl; [now split|].
  apply IH; [now apply scan_step_keys|now apply scan_step_NoDup].
Qed.

(** The keys of the maps are the keys of the files passed over, added to
    those that were there. *)
Lemma scan_fold_In l : forall s k,
  In k (keys (modules (fold_left (scan_step env) l s)))
  <-> In k (keys (modules s)) \/ exists d, In d l /\ key_of_file env d = k.
Proof.
  induction l as [|d l IH]; intros s k; simpl.
  - split; [now left|]. intros [H|(d & [] & _)]; exact H.
  - rewrite IH. unfold scan_step, scan_file; simpl.
    rewrite keys_set. fold (key_of_file env d).
    destruct (mem (key_of_file env d) (modules s)) eqn:Hm.
    + split.
      * intros [H|(d' & Hd' & <-)]; [now left|right; eauto].
      * intros [H|(d' & [->|Hd'] & <-)]; [now left| |right; eauto].
        left. now apply mem_keys.
    + rewrite in_app_iff. simpl. split.
      * intros [[H|[<-|[]]]|(d' & Hd' & <-)]; [now left|right; eauto|right; eauto].
      * intros [H|(d' & [->|Hd'] & <-)]; [now left; left|now left; right; left|right; eauto].
Qed.

(** With keys that tell the files apart, each key leads to its file and
    to the metadata read from it. *)
Lemma scan_fold_get l : forall s d,
  In d l ->
  (forall d', In d' l -> key_of_file env d' = key_of_file env d ->
              path_of d' = path_of d) ->
  let s' := fold_left (scan_step env) l s in
  get (modules s') (key_of_file env d) = Some (path_of d)
  /\ get (metadata s') (key_of_file env d) = Some (_read_meta env (path_of d)).
Proof.
  induction l as [|x l IH] using rev_ind; intros s d Hin Hinj; [destruct Hin|].
  cbv zeta. rewrite fold_left_app. cbn [fold_left].
  unfold scan_step at 1 3, scan_file; cbn [modules metadata with_registry].
  fold (key_of_file env x). change {| folder := fst (fst x); rel := snd x |}
    with (path_of x).
  destruct (str_eq_dec (key_of_file env x) (key_of_file env d)) as [E|Hne].
  - rewrite <- E, !get_set_eq.
    rewrite (Hinj x); [now split| |exact E].
    apply in_or_app; right; now left.
  - rewrite !get_set_ne by exact Hne.
    apply IH.
    + apply in_app_or in Hin as [H|[->|[]]]; [exact H|congruence].
    + intros d' Hd'. apply Hinj. apply in_or_app; now left.
Qed.

(** The two prefixes differ, and the path after the prefix is kept. *)
Lemma key_of_file_inj d1 d2 :
  paths_portable env ->
  In d1 (discovered env) -> In d2 (discovered env) ->
  key_of_file env d1 = key_of_file env d2 -> d1 = d2.
Proof.
  intros Hp H1 H2 E.
  apply In_discovered in H1 as [R1 G1]. apply In_discovered in H2 as [R2 G2].
  destruct d1 as [fp1 r1], d2 as [fp2 r2]; simpl in *.
  unfold key_of_file, key_of in E; simpl in E.
  assert (Hr : forall a b root1 root2,
             In a (rglob env root1) -> In b (rglob env root2) ->
             replace a (sep env) (lit "/") = replace b (sep env) (lit "/") ->
             a = b).
  { intros a b root1 root2 Ha Hb Hab. destruct Hp as [Hs|Hs].
    - rewrite Hs in Hab. change (lit "/") with [chr "/"] in Hab.
      now rewrite !replace_same in Hab.
    - apply (replace_inj (sep env) (chr "/")); eauto. }
  destruct R1 as [<-|[<-|[]]], R2 as [<-|[<-|[]]]; simpl in E;
    try discriminate E.
  - apply (app_inv_head (lit "modules/")) in E. f_equal. eapply Hr; eauto.
  - apply (app_inv_head (lit "examples/")) in E. f_equal. eapply Hr; eauto.
Qed.

End ScanFacts.

(* ================================================================== *)
(** * The session: options and loading *)
(* ================================================================== *)

Section SessionClaims.

Import LazyFramework.

Lemma get_options_cases inst opts :
  OPTIONS (ModuleInstance.module inst) = Some opts ->
  ModuleInstance.get_options inst
  = (Ok (map (fun kv =>
                (fst kv,
                 update [(lit "value",
                          ModuleInstance.current_value inst (fst kv) (snd kv))]
                        (snd kv)))
             opts),
     inst, []).
Proof.
  intros H.
  unfold ModuleInstance.get_options, ModuleInstance.module_OPTIONS,
    bind, get_state, ret, items.
  rewrite H. simpl. rewrite of_items_distinct; [reflexivity|].
  rewrite (keys_map_values
             (fun k v => update [(lit "value",
                                  ModuleInstance.current_value inst k v)] v)).
  eapply OPTIONS_NoDup, H.
Qed.


(** C5. [setOption(name, value)] on a loaded session: a name that is not in
    the module's schema raises the unknown-option error ([KeyError]) and
    leaves the session, its store included, as it was; a declared name
    gets the value, over any value it had, and nothing else changes: not
    the other entries, not the name or the module, and nothing is printed.
    The [set] command passes the value as a string, its remaining words
    joined by blanks. *)
Theorem set_option_validates
  (inst : ModuleInstance.t) (opts : dict option_meta) (key : str)
  (value : pyval) :
  OPTIONS (ModuleInstance.module inst) = Some opts ->
  (if mem key opts
   then exists inst',
       ModuleInstance.set_option key value inst = (Ok tt, inst', [])
       /\ ModuleInstance.name inst' = ModuleInstance.name inst
       /\ ModuleInstance.module inst' = ModuleInstance.module inst
       /\ get (ModuleInstance.options inst') key = Some value
       /\ forall k, k <> key ->
            get (ModuleInstance.options inst') k
            = get (ModuleInstance.options inst) k
   else ModuleInstance.set_option key value inst
        = (Raise (KeyError (lit "Unknown option '" ++ key ++ lit "'")),
           inst, []))
  /\ forall fw w ws,
       loaded_module fw = Some inst ->
       state_of (cmd_set (key :: w :: ws) fw)
       = if mem key opts
         then with_loaded_module fw
                (Some (ModuleInstance.with_options inst
                         (set (ModuleInstance.options inst) key
                              (PyStr (join (lit " ") (w :: ws))))))
         else fw.
Proof.
  intros H. split.
  - rewrite (set_option_cases inst opts key value H).
    destruct (mem key opts); [|reflexivity].
    eexists; repeat split; simpl.
    + apply get_set_eq.
    + intros k Hk. apply get_set_ne. congruence.
  - intros fw w ws Hl. rewrite (cmd_set_cases fw inst opts key w ws Hl H).
    destruct (mem key opts); reflexivity.
Qed.





(** C7. A [use] whose key the registry does not know, or whose file fails
    to load (its execution raises, or it defines no [OPTIONS]), prints one
    load-error line and leaves the engine as it was: the registry, the
    session context and the loaded session, with its module and its
    option values. *)
Theorem failed_use_keeps_session
  (env : Env) (fw : LazyFramework.t) (key : str) (rest : list str) :
  (get (modules fw) (candidate_key fw key) = None
   \/ (exists p e,
         get (modules fw) (candidate_key fw key) = Some p
         /\ exec_module env p = Raise e)
   \/ (exists p m,
         get (modules fw) (candidate_key fw key) = Some p
         /\ exec_module env p = Ok m /\ OPTIONS m = None)) ->
  exists e, cmd_use env (key :: rest) fw = (Ok tt, fw, load_error_line e).
Proof.
  rewrite cmd_use_cases. cbv zeta.
  intros [H|[(p & e & H & He)|(p & m & H & He & Ho)]]; rewrite H.
  - eexists; reflexivity.
  - rewrite He. eexists; reflexivity.
  - rewrite He, Ho. eexists; reflexivity.
Qed.

End SessionClaims.

(* ================================================================== *)
(** * The session: what [run] hands to the module *)
(* ================================================================== *)

Section RunClaims.

Import LazyFramework.

Lemma cmd_set_usage fw inst args :
  loaded_module fw = Some inst ->
  length args < 2 ->
  state_of (cmd_set args fw) = fw.
Proof.
  intros Hl Hlen. unfold cmd_set, bind, get_state, print, state_of.
  rewrite Hl. destruct args as [|a [|b args]]; simpl in *; try reflexivity.
  lia.
Qed.

(** A sequence of [set] commands keeps the module loaded and changes the
    store at the declared names it sets, and nowhere else. *)
Lemma after_sets_store sets : forall fw inst (opts : dict option_meta),
  loaded_module fw = Some inst ->
  OPTIONS (ModuleInstance.module inst) = Some opts ->
  exists inst',
    loaded_module (after_sets sets fw) = Some inst'
    /\ ModuleInstance.name inst' = ModuleInstance.name inst
    /\ ModuleInstance.module inst' = ModuleInstance.module inst
    /\ session (after_sets sets fw) = session fw
    /\ forall name,
         get (ModuleInstance.options inst') name
         = if mem name opts
           then match override sets name with
                | Some v => Some v
                | None => get (ModuleInstance.options inst) name
                end
           else get (ModuleInstance.options inst) name.
Proof.
  induction sets as [|args sets IH]; intros fw inst opts Hl Ho.
  - exists inst. repeat split; auto. intros name. simpl.
    now destruct (mem name opts).
  - unfold after_sets in *. cbn [fold_left].
    destruct args as [|opt [|w ws]].
    1,2: rewrite (cmd_set_usage fw inst) by (simpl; auto; lia);
         destruct (IH fw inst opts Hl Ho) as (inst' & H1 & H2 & H3 & H4 & H5);
         exists inst'; repeat split; auto;
         intros name; rewrite H5; cbn [override];
         now destruct (override sets name).
    unfold state_of at 2.
    rewrite (cmd_set_cases fw inst opts opt w ws Hl Ho).
    destruct (mem opt opts) eqn:Hm; cbn [fst snd].
    + set (inst1 := ModuleInstance.with_options inst _).
      destruct (IH (with_loaded_module fw (Some inst1)) inst1 opts
                  eq_refl Ho) as (inst' & H1 & H2 & H3 & H4 & H5).
      exists inst'. repeat split; auto.
      intros name. rewrite H5. cbn [override].
      destruct (mem name opts) eqn:Hn.
      * destruct (override sets name); [reflexivity|].
        unfold inst1; simpl.
        destruct (str_eq_dec opt name) as [->|Hne].
        -- apply get_set_eq.
        -- now apply get_set_ne.
      * unfold inst1; simpl. apply get_set_ne. congruence.
    + destruct (IH fw inst opts Hl Ho) as (inst' & H1 & H2 & H3 & H4 & H5).
      exists inst'. repeat split; auto.
      intros name. rewrite H5. cbn [override].
      destruct (mem name opts) eqn:Hn; [|reflexivity].
      destruct (override sets name); [reflexivity|].
      destruct (str_eq_dec opt name) as [->|Hne]; [congruence|reflexivity].
Qed.

Lemma cmd_run_trace fw inst f :
  loaded_module fw = Some inst ->
  run_attr (ModuleInstance.module inst) = Some f ->
  exists tail,
    trace_of (cmd_run [] fw)
    = Call (ModuleInstance.name inst) (session fw)
           (ModuleInstance.options inst) :: tail.
Proof.
  intros Hl Hf.
  unfold cmd_run, ModuleInstance.run, try_except, bind, get_state, print,
    trace_of.
  rewrite Hl. cbn [fst snd]. rewrite Hf.
  destruct (f (session fw) (ModuleInstance.options inst)) as [[r s'] o'].
  destruct r; simpl; eexists; reflexivity.
Qed.

(** C1, as stated, fails: the module of [need.py] declares the option
    TARGET with no default.  Once it is loaded, [getOptions()] resolves
    TARGET (to [None]), but [run] hands the module the store, which has no
    TARGET. *)
Lemma run_omits_option_without_default :
  loaded_module DemoSessions.need_loaded = Some DemoSessions.need_instance
  /\ option_map keys (OPTIONS Demo.need_module) = Some [lit "TARGET"]
  /\ option_map resolved
       (match outcome_of (ModuleInstance.get_options
                            DemoSessions.need_instance) with
        | Ok d => Some d
        | Raise _ => None
        end)
     = Some [(lit "TARGET", PyNone)]
  /\ trace_of (cmd_run [] DemoSessions.need_loaded)
     = [Call (lit "modules/need.py") [(lit "user", PyStr (lit "root"))] []].
Proof. repeat split; vm_compute; reflexivity. Qed.

(** C1, amended. [run] invokes the module's entry point with the session
    context and the session's store itself.  After a successful [use] and
    any sequence of [set] commands, the store binds every schema option
    to its override if one was set and otherwise to the schema default if
    the schema declares one; an option with neither is not in the
    mapping, and no other name is. *)
Theorem run_receives_option_store
  (env : Env) (fw : LazyFramework.t) (key : str) (rest : list str) (k : str)
  (sets : list (list str)) :
  trace_of (cmd_use env (key :: rest) fw) = loaded_line k ->
  exists inst opts,
    loaded_module (after_sets sets (state_of (cmd_use env (key :: rest) fw)))
    = Some inst
    /\ OPTIONS (ModuleInstance.module inst) = Some opts
    /\ (forall name,
          get (ModuleInstance.options inst) name
          = if mem name opts
            then match override sets name with
                 | Some v => Some v
                 | None => declared_default opts name
                 end
            else None)
    /\ forall f,
         run_attr (ModuleInstance.module inst) = Some f ->
         exists tail,
           trace_of (cmd_run []
                       (after_sets sets
                          (state_of (cmd_use env (key :: rest) fw))))
           = Call k (session fw) (ModuleInstance.options inst) :: tail.
Proof.
  intros Hu.
  destruct (cmd_use_loaded_inv env fw key rest k Hu)
    as (p & m & opts & _ & _ & _ & Ho & Hst).
  rewrite Hst.
  set (inst1 := enter_defaults opts (ModuleInstance.mk k m [])).
  destruct (enter_defaults_name_module opts (ModuleInstance.mk k m []))
    as [Hn1 Hm1].
  cbn [ModuleInstance.name ModuleInstance.module] in Hn1, Hm1.
  fold inst1 in Hn1, Hm1.
  assert (Ho1 : OPTIONS (ModuleInstance.module inst1) = Some opts)
    by (now rewrite Hm1).
  destruct (after_sets_store sets (with_loaded_module fw (Some inst1))
              inst1 opts eq_refl Ho1)
    as (inst & Hl & Hn & Hm & Hse & Hs).
  exists inst, opts. split; [exact Hl|]. split; [now rewrite Hm|]. split.
  - intros name. rewrite Hs. unfold inst1.
    rewrite enter_defaults_get by (eapply OPTIONS_NoDup, Ho).
    cbn [ModuleInstance.options get].
    destruct (mem name opts) eqn:E.
    + now destruct (declared_default opts name).
    + unfold declared_default. unfold mem in E.
      now destruct (get opts name).
  - intros f Hf. destruct (cmd_run_trace _ inst f Hl Hf) as [tail Ht].
    exists tail. rewrite Ht, Hn, Hn1, Hse. reflexivity.
Qed.

End RunClaims.

(* ================================================================== *)
(** * The registry: scan and search *)
(* ================================================================== *)

Section RegistryClaims.

Import LazyFramework.

(** C3, as stated, fails: modules/locked.py cannot be read, and the scan
    enters its key into both maps, with an empty metadata record; the scan
    goes on to the files after it. *)
Lemma scan_lists_locked_file :
  In DemoFiles.locked (discovered Demo.env)
  /\ readlines Demo.env (path_of DemoFiles.locked) = None
  /\ get (modules (state_of (scan_modules Demo.env Demo.start)))
         (lit "modules/locked.py")
     = Some (path_of DemoFiles.locked)
  /\ get (metadata (state_of (scan_modules Demo.env Demo.start)))
         (lit "modules/locked.py")
     = Some empty_meta
  /\ mem (lit "modules/need.py")
         (modules (state_of (scan_modules Demo.env Demo.start))) = true.
Proof. repeat split; vm_compute; auto. Qed.

(** C3, amended. The scan always completes, and it lists every file it
    discovers, whether or not the file can be read: the file's key leads
    to its location and to the metadata extracted from it, which is the
    empty record when reading the file fails.  (Relative paths are taken
    to be portable: no slash in a file name where the separator is another
    character.) *)
Theorem scan_lists_every_file
  (env : Env) (fw : LazyFramework.t) (d : (Root * str) * str) :
  paths_portable env ->
  In d (discovered env) ->
  outcome_of (scan_modules env fw) = Ok tt
  /\ get (modules (state_of (scan_modules env fw))) (key_of_file env d)
     = Some (path_of d)
  /\ get (metadata (state_of (scan_modules env fw))) (key_of_file env d)
     = Some (_read_meta env (path_of d))
  /\ (readlines env (path_of d) = None ->
      _read_meta env (path_of d) = empty_meta).
Proof.
  intros Hp Hd. rewrite scan_modules_discovered.
  unfold outcome_of, state_of; cbn [fst snd].
  split; [reflexivity|].
  destruct (scan_fold_get env (discovered env) (with_registry fw [] []) d Hd)
    as [Hm He].
  { intros d' Hd' E. f_equal. now apply (key_of_file_inj env). }
  split; [exact Hm|]. split; [exact He|].
  intros Hr. unfold _read_meta. now rewrite Hr.
Qed.

(** C4. After a scan the location map and the metadata map have the same
    keys, each once (they are the keys of the discovered files), and two
    distinct discovered files have distinct keys.  (Relative paths are
    taken to be portable: no slash in a file name where the separator is
    another character.) *)
Theorem scan_maps_agree (env : Env) (fw : LazyFramework.t) :
  paths_portable env ->
  keys (modules (state_of (scan_modules env fw)))
  = keys (metadata (state_of (scan_modules env fw)))
  /\ NoDup (keys (modules (state_of (scan_modules env fw))))
  /\ (forall k,
        In k (keys (modules (state_of (scan_modules env fw))))
        <-> exists d, In d (discovered env) /\ key_of_file env d = k)
  /\ forall d1 d2,
       In d1 (discovered env) -> In d2 (discovered env) ->
       d1 <> d2 -> key_of_file env d1 <> key_of_file env d2.
Proof.
  intros Hp. rewrite scan_modules_discovered.
  unfold state_of; cbn [fst snd].
  destruct (scan_fold_keys env (discovered env) (with_registry fw [] []))
    as [Hk Hn]; [reflexivity|constructor|].
  split; [exact Hk|]. split; [exact Hn|]. split.
  - intros k. rewrite scan_fold_In. simpl. tauto.
  - intros d1 d2 H1 H2 Hne E. apply Hne.
    now apply (key_of_file_inj env).
Qed.

(** C8. [search(keyword)] returns, in the registry's order, the key and
    description of exactly the entries whose key or description contains
    the keyword, both lower-cased; the empty keyword returns every
    registered key, and a registered key finds itself.  ([str.lower] is
    taken to map the empty string to itself.) *)
Theorem search_modules_finds (env : Env) (s : Search.t) (keyword : str) :
  lower env [] = [] ->
  Search.search_modules env s keyword
  = map (fun km => (fst km, description (snd km)))
        (filter (hit env keyword) (items (Search.metadata s)))
  /\ (forall k d,
        In (k, d) (Search.search_modules env s keyword)
        <-> exists meta,
              In (k, meta) (items (Search.metadata s))
              /\ d = description meta
              /\ (contains_nocase env k keyword = true
                  \/ contains_nocase env d keyword = true))
  /\ map fst (Search.search_modules env s []) = keys (Search.metadata s)
  /\ forall k,
       In k (keys (Search.metadata s)) ->
       In k (map fst (Search.search_modules env s k)).
Proof.
  intros Hlow.
  assert (Heq : forall kw,
             Search.search_modules env s kw
             = map (fun km => (fst km, description (snd km)))
                   (filter (hit env kw) (items (Search.metadata s)))).
  { intros kw. unfold Search.search_modules, items.
    induction (Search.metadata s) as [|[k m] l IH]; simpl; [reflexivity|].
    unfold hit at 1, contains_nocase; simpl.
    destruct (contains (lower env k) (lower env kw)
              || contains (lower env (description m)) (lower env kw));
      simpl; now rewrite IH. }
  split; [apply Heq|]. split; [|split].
  - intros k d. rewrite Heq, in_map_iff. split.
    + intros ([k' m] & E & Hin). inversion E; subst; clear E.
      apply filter_In in Hin as [Hin Hhit]. exists m.
      split; [exact Hin|]. split; [reflexivity|].
      unfold hit in Hhit. simpl in Hhit. now apply orb_true_iff.
    + intros (m & Hin & -> & Hhit). exists (k, m). split; [reflexivity|].
      apply filter_In. split; [exact Hin|].
      unfold hit. simpl. now apply orb_true_iff.
  - rewrite Heq, map_map. clear Heq. simpl. unfold keys, items.
    induction (Search.metadata s) as [|[k m] l IH]; simpl; [reflexivity|].
    unfold hit at 1, contains_nocase. simpl.
    rewrite Hlow, contains_nil. simpl. now rewrite IH.
  - intros k Hk. rewrite Heq, map_map. simpl.
    unfold keys, items in *. apply in_map_iff in Hk as ([k' m] & <- & Hin).
    apply in_map_iff. exists (k', m). split; [reflexivity|].
    apply filter_In. split; [exact Hin|].
    unfold hit, contains_nocase. simpl. now rewrite contains_refl.
Qed.

End RegistryClaims.

(* ================================================================== *)
(** * The metadata extractor *)
(* ================================================================== *)

Section ExtractorClaims.

Import LazyFramework.

(** The extractor reports what the direct scans find in the first 120
    lines: the first description field, and the quoted names of the block
    of the first [OPTIONS] declaration. *)
Lemma read_meta_cases env p :
  _read_meta env p
  = match readlines env p with
    | None => empty_meta
    | Some lines =>
        {| description :=
             match Spec.description_field (Spec.head_text lines) with
             | Some v => v
             | None => []
             end;
           options :=
             match Spec.options_block (Spec.head_text lines) with
             | Some block => Spec.quoted_names false block
             | None => []
             end |}
    end.
Proof.
  unfold _read_meta, Spec.head_text.
  destruct (readlines env p) as [lines|]; [|reflexivity].
  rewrite <- search_DESCRIPTION_RE, <- search_OPTIONS_RE.
  destruct (Re.search DESCRIPTION_RE _) as [m|];
    destruct (Re.search OPTIONS_RE _) as [mo|]; simpl;
    rewrite ?findall_NAME_RE; reflexivity.
Qed.

(** C9, as stated, fails on modules/spaced.py, whose [OPTIONS] declares
    PORT and HOST, with a blank between PORT and its colon.  The extractor
    returns PORT and the first [default].  PORT is not immediately
    followed by a colon; and whether the block ends at the first closing
    brace or at the matching one, the quoted identifiers immediately
    followed by a colon are not what the extractor returns, nor are, up
    to the matching brace, those followed by a colon after blanks. *)
Lemma extractor_differs_on_spaced_file :
  readlines Demo.env (path_of DemoFiles.spaced) = Some Demo.spaced_lines
  /\ options (_read_meta Demo.env (path_of DemoFiles.spaced))
     = [lit "PORT"; lit "default"]
  /\ Spec.options_block (Spec.head_text Demo.spaced_lines)
     = Some DemoFiles.spaced_block
  /\ Spec.quoted_names true DemoFiles.spaced_block = [lit "default"]
  /\ Spec.outer_block (Spec.head_text Demo.spaced_lines)
     = Some DemoFiles.spaced_outer_block
  /\ Spec.quoted_names true DemoFiles.spaced_outer_block
     = [lit "default"; lit "HOST"; lit "default"]
  /\ Spec.quoted_names false DemoFiles.spaced_outer_block
     = [lit "PORT"; lit "default"; lit "HOST"; lit "default"].
Proof. repeat split; vm_compute; reflexivity. Qed.

(** C9, amended. For a file whose first 120 lines contain an [OPTIONS]
    declaration, the declared option names are exactly the quoted
    identifiers followed by a colon, blanks allowed between the closing
    quotation mark and the colon, that occur between the opening brace of
    the first declaration and the first closing brace, in the order in
    which they appear; and the whole record depends on the first 120
    lines only. *)
Theorem read_meta_declared_names
  (env : Env) (p : Path) (lines : list str) (block : str) :
  readlines env p = Some lines ->
  Spec.options_block (Spec.head_text lines) = Some block ->
  options (_read_meta env p) = Spec.quoted_names false block
  /\ forall env' p' lines',
       readlines env' p' = Some lines' ->
       firstn METADATA_READ_LINES lines' = firstn METADATA_READ_LINES lines ->
       _read_meta env' p' = _read_meta env p.
Proof.
  intros Hr Hb. split.
  - rewrite read_meta_cases, Hr. simpl. now rewrite Hb.
  - intros env' p' lines' Hr' Hhead.
    rewrite !read_meta_cases, Hr, Hr'. unfold Spec.head_text.
    now rewrite Hhead.
Qed.

(** C2, as stated, fails.  modules/bare.py has no [OPTIONS] declaration
    and no description field, and the module it defines has no [OPTIONS]
    attribute: its metadata is empty, and [use] reports a load error and
    loads nothing.  modules/late.py has none in its first 120 lines
    either, and declares MSG further down: its metadata is empty, [use]
    loads it, [set MSG y] succeeds, and [run] receives MSG. *)
Lemma undeclared_files_bare_and_late :
  (readlines Demo.env (path_of DemoFiles.bare) = Some Demo.bare_lines
   /\ Spec.options_block (Spec.head_text Demo.bare_lines) = None
   /\ Spec.description_field (Spec.head_text Demo.bare_lines) = None
   /\ exec_module Demo.env (path_of DemoFiles.bare) = Ok Demo.bare_module
   /\ get (metadata Demo.start) (lit "modules/bare.py") = Some empty_meta
   /\ cmd_use Demo.env [lit "bare.py"] Demo.start
      = (Ok tt, Demo.start,
         load_error_line (AttributeError (lit "OPTIONS")))
   /\ loaded_module Demo.start = None)
  /\ (readlines Demo.env (path_of DemoFiles.late) = Some Demo.late_lines
      /\ Spec.options_block (Spec.head_text Demo.late_lines) = None
      /\ Spec.description_field (Spec.head_text Demo.late_lines) = None
      /\ exec_module Demo.env (path_of DemoFiles.late) = Ok Demo.late_module
      /\ get (metadata Demo.start) (lit "modules/late.py") = Some empty_meta
      /\ trace_of (cmd_use Demo.env [lit "late.py"] Demo.start)
         = loaded_line (lit "modules/late.py")
      /\ trace_of (cmd_set [lit "MSG"; lit "y"] DemoSessions.late_loaded)
         = [Print [PS (lit "MSG => y")]]
      /\ trace_of (cmd_run [] DemoSessions.late_configured)
         = [Call (lit "modules/late.py") [(lit "user", PyStr (lit "root"))]
              [(lit "MSG", PyStr (lit "y"))]]).
Proof. repeat split; vm_compute; reflexivity. Qed.

(** C2, amended. For a module file whose first 120 lines contain no
    [OPTIONS] declaration and no description field, the extracted
    metadata is empty.  A [use] of the file loads it only if its
    execution defines an [OPTIONS] mapping; otherwise it prints a load
    error and loads nothing.  When the mapping it defines is empty, the
    new session has an empty store, [setOption] fails on every name with
    the unknown-option error, and [run] invokes the entry point with an
    empty mapping. *)
Theorem undeclared_module_file
  (env : Env) (p : Path) (lines : list str) :
  readlines env p = Some lines ->
  Spec.options_block (Spec.head_text lines) = None ->
  Spec.description_field (Spec.head_text lines) = None ->
  _read_meta env p = empty_meta
  /\ forall fw key rest,
       get (modules fw) (candidate_key fw key) = Some p ->
       match exec_module env p with
       | Raise e =>
           cmd_use env (key :: rest) fw = (Ok tt, fw, load_error_line e)
       | Ok m =>
           match OPTIONS_items m with
           | None =>
               cmd_use env (key :: rest) fw
               = (Ok tt, fw, load_error_line (AttributeError (lit "OPTIONS")))
           | Some [] =>
               let inst := ModuleInstance.mk (candidate_key fw key) m [] in
               cmd_use env (key :: rest) fw
               = (Ok tt, with_loaded_module fw (Some inst),
                  loaded_line (candidate_key fw key))
               /\ (forall name v,
                     ModuleInstance.set_option name v inst
                     = (Raise (KeyError
                                 (lit "Unknown option '" ++ name ++ lit "'")),
                        inst, []))
               /\ forall f,
                    run_attr m = Some f ->
                    exists tail,
                      trace_of (cmd_run []
                                  (with_loaded_module fw (Some inst)))
                      = Call (candidate_key fw key) (session fw) [] :: tail
           | Some (_ :: _) => True
           end
       end.
Proof.
  intros Hr Hb Hd. split.
  - rewrite read_meta_cases, Hr, Hb, Hd. reflexivity.
  - intros fw key rest Hp. rewrite cmd_use_cases. cbv zeta. rewrite Hp.
    destruct (exec_module env p) as [m|e]; [|reflexivity].
    destruct (OPTIONS_items m) as [[|kv l]|] eqn:Hi; [| exact I |].
    + assert (Ho : OPTIONS m = Some []) by (now apply OPTIONS_empty).
      rewrite Ho. split; [reflexivity|]. split.
      * intros name v.
        now rewrite (set_option_cases
                       (ModuleInstance.mk (candidate_key fw key) m [])
                       [] name v Ho).
      * intros f Hf.
        destruct (cmd_run_trace
                    (with_loaded_module fw
                       (Some (ModuleInstance.mk (candidate_key fw key) m [])))
                    (ModuleInstance.mk (candidate_key fw key) m []) f
                    eq_refl Hf) as [tail Ht].
        exists tail. exact Ht.
    + unfold OPTIONS. now rewrite Hi.
Qed.

End ExtractorClaims.

(* ================================================================== *)
(** * The properties at work on the concrete installation *)
(* ================================================================== *)

Section Witnesses.

Import LazyFramework.

Lemma set_option_validates_witness :
  OPTIONS (ModuleInstance.module DemoSessions.echo_instance)
  = Some Demo.echo_schema
  /\ exists inst',
       ModuleInstance.set_option (lit "MSG") (PyStr (lit "hi"))
         DemoSessions.echo_instance
       = (Ok tt, inst', [])
       /\ get (ModuleInstance.options inst') (lit "MSG")
          = Some (PyStr (lit "hi")).
Proof.
  split; [reflexivity|].
  destruct (set_option_validates DemoSessions.echo_instance Demo.echo_schema
              (lit "MSG") (PyStr (lit "hi")) eq_refl) as [H _].
  change (mem (lit "MSG") Demo.echo_schema) with true in H.
  destruct H as (inst' & H1 & _ & _ & H4 & _).
  exists inst'. split; assumption.
Defined.



Lemma failed_use_keeps_session_witness :
  get (modules DemoSessions.echo_configured)
      (candidate_key DemoSessions.echo_configured (lit "nope")) = None
  /\ exists e,
       cmd_use Demo.env [lit "nope"] DemoSessions.echo_configured
       = (Ok tt, DemoSessions.echo_configured, load_error_line e).
Proof.
  assert (H : get (modules DemoSessions.echo_configured)
                (candidate_key DemoSessions.echo_configured (lit "nope"))
              = None)
    by (vm_compute; reflexivity).
  split; [exact H|].
  exact (failed_use_keeps_session Demo.env DemoSessions.echo_configured
           (lit "nope") [] (or_introl H)).
Defined.

Lemma run_receives_option_store_witness :
  trace_of (cmd_use Demo.env [lit "aux/echo.py"] Demo.start)
  = loaded_line (lit "examples/aux/echo.py")
  /\ exists inst opts,
       loaded_module DemoSessions.echo_configured = Some inst
       /\ OPTIONS (ModuleInstance.module inst) = Some opts
       /\ get (ModuleInstance.options inst) (lit "MSG")
          = Some (PyStr (lit "hi there")).
Proof.
  assert (H : trace_of (cmd_use Demo.env [lit "aux/echo.py"] Demo.start)
              = loaded_line (lit "examples/aux/echo.py"))
    by (vm_compute; reflexivity).
  split; [exact H|].
  destruct (run_receives_option_store Demo.env Demo.start (lit "aux/echo.py")
              [] (lit "examples/aux/echo.py") DemoSessions.echo_sets H)
    as (inst & opts & Hl & Ho & Hs & _).
  exists inst, opts. split; [exact Hl|]. split; [exact Ho|].
  rewrite Hs.
  assert (Hm : mem (lit "MSG") opts = true).
  { assert (E : Some opts = Some Demo.echo_schema).
    { rewrite <- Ho. unfold DemoSessions.echo_configured in Hl.
      vm_compute in Hl. inversion Hl. reflexivity. }
    inversion E. reflexivity. }
  rewrite Hm. reflexivity.
Defined.

Lemma demo_paths_portable : paths_portable Demo.env.
Proof. left. reflexivity. Defined.

Lemma scan_lists_every_file_witness :
  paths_portable Demo.env
  /\ In DemoFiles.locked (discovered Demo.env)
  /\ get (modules (state_of (scan_modules Demo.env Demo.start)))
         (key_of_file Demo.env DemoFiles.locked)
     = Some (path_of DemoFiles.locked)
  /\ get (metadata (state_of (scan_modules Demo.env Demo.start)))
         (key_of_file Demo.env DemoFiles.locked)
     = Some (_read_meta Demo.env (path_of DemoFiles.locked)).
Proof.
  assert (Hin : In DemoFiles.locked (discovered Demo.env))
    by (vm_compute; auto).
  split; [exact demo_paths_portable|]. split; [exact Hin|].
  destruct (scan_lists_every_file Demo.env Demo.start DemoFiles.locked
              demo_paths_portable Hin) as (_ & H1 & H2 & _).
  split; assumption.
Defined.

Lemma scan_maps_agree_witness :
  paths_portable Demo.env
  /\ keys (modules (state_of (scan_modules Demo.env Demo.start)))
     = keys (metadata (state_of (scan_modules Demo.env Demo.start))).
Proof.
  split; [exact demo_paths_portable|].
  exact (proj1 (scan_maps_agree Demo.env Demo.start demo_paths_portable)).
Defined.

Lemma search_modules_finds_witness :
  lower Demo.env [] = []
  /\ In (lit "examples/aux/echo.py")
        (map fst (Search.search_modules Demo.env DemoSessions.index
                    (lit "examples/aux/echo.py"))).
Proof.
  split; [reflexivity|].
  destruct (search_modules_finds Demo.env DemoSessions.index
              (lit "examples/aux/echo.py") eq_refl) as (_ & _ & _ & H).
  apply H. vm_compute. auto 10.
Defined.

Lemma read_meta_declared_names_witness :
  readlines Demo.env (path_of DemoFiles.spaced) = Some Demo.spaced_lines
  /\ Spec.options_block (Spec.head_text Demo.spaced_lines)
     = Some DemoFiles.spaced_block
  /\ options (_read_meta Demo.env (path_of DemoFiles.spaced))
     = Spec.quoted_names false DemoFiles.spaced_block.
Proof.
  assert (Hb : Spec.options_block (Spec.head_text Demo.spaced_lines)
               = Some DemoFiles.spaced_block)
    by (vm_compute; reflexivity).
  split; [reflexivity|]. split; [exact Hb|].
  exact (proj1 (read_meta_declared_names Demo.env (path_of DemoFiles.spaced)
                  Demo.spaced_lines DemoFiles.spaced_block eq_refl Hb)).
Defined.

Lemma undeclared_module_file_witness :
  readlines Demo.env (path_of DemoFiles.quiet) = Some Demo.quiet_lines
  /\ Spec.options_block (Spec.head_text Demo.quiet_lines) = None
  /\ Spec.description_field (Spec.head_text Demo.quiet_lines) = None
  /\ _read_meta Demo.env (path_of DemoFiles.quiet) = empty_meta.
Proof.
  assert (Hb : Spec.options_block (Spec.head_text Demo.quiet_lines) = None)
    by (vm_compute; reflexivity).
  assert (Hd : Spec.description_field (Spec.head_text Demo.quiet_lines) = None)
    by (vm_compute; reflexivity).
  split; [reflexivity|]. split; [exact Hb|]. split; [exact Hd|].
  exact (proj1 (undeclared_module_file Demo.env (path_of DemoFiles.quiet)
                  Demo.quiet_lines eq_refl Hb Hd)).
Defined.

(** The scenario of the echo module: [use] loads it with MSG at its
    default, the empty string; after [set MSG hi there] the module is run
    with MSG bound to the new value. *)
Example echo_scenario :
  loaded_module DemoSessions.echo_loaded = Some DemoSessions.echo_instance
  /\ trace_of (cmd_run [] DemoSessions.echo_configured)
     = [Call (lit "examples/aux/echo.py") [(lit "user", PyStr (lit "root"))]
          [(lit "MSG", PyStr (lit "hi there"))]].
Proof. split; vm_compute; reflexivity. Qed.

End Witnesses.

(* ================================================================== *)
(** * Further properties: the commands, one by one *)
(* ================================================================== *)

Section CommandFacts.

Import LazyFramework.

Lemma state_eta (fw : LazyFramework.t) :
  mk (modules fw) (metadata fw) (loaded_module fw) (session fw) = fw.
Proof. now destruct fw. Qed.

Lemma cmd_set_total args fw :
  cmd_set args fw
  = match loaded_module fw with
    | None => (Ok tt, fw, [Print [PS (lit "No module loaded.")]])
    | Some inst =>
        match args with
        | opt :: w :: ws =>
            match OPTIONS (ModuleInstance.module inst) with
            | None =>
                (Ok tt, fw, [Print [PE (AttributeError (lit "OPTIONS"))]])
            | Some opts =>
                if mem opt opts
                then (Ok tt,
                      with_loaded_module fw
                        (Some (ModuleInstance.with_options inst
                                 (set (ModuleInstance.options inst) opt
                                      (PyStr (join (lit " ") (w :: ws)))))),
                      [Print [PS (opt ++ lit " => "
                                  ++ join (lit " ") (w :: ws))]])
                else (Ok tt, fw,
                      [Print [PE (KeyError
                                    (lit "Unknown option '" ++ opt
                                     ++ lit "'"))]])
            end
        | _ => (Ok tt, fw, [Print [PS (lit "Usage: set <option> <value>")]])
        end
    end.
Proof.
  destruct (loaded_module fw) as [inst|] eqn:Hl.
  - destruct args as [|opt [|w ws]].
    1,2: unfold cmd_set, bind, get_state, print; rewrite Hl; reflexivity.
    destruct (OPTIONS (ModuleInstance.module inst)) as [opts|] eqn:Ho.
    + apply (cmd_set_cases fw inst opts opt w ws Hl Ho).
    + unfold cmd_set, on_loaded, try_except, bind, get_state, print,
        ModuleInstance.set_option, ModuleInstance.module_OPTIONS, raise.
      rewrite Hl. cbv beta iota. unfold get_state, bind. cbv beta iota.
      rewrite Ho. cbv beta iota.
      now rewrite (with_loaded_module_same fw inst Hl).
  - unfold cmd_set, bind, get_state, print. now rewrite Hl.
Qed.

Lemma cmd_run_total args fw :
  cmd_run args fw
  = match loaded_module fw with
    | None => (Ok tt, fw, [Print [PS (lit "No module loaded.")]])
    | Some inst =>
        match run_attr (ModuleInstance.module inst) with
        | None =>
            (Ok tt, fw,
             [Print [PS (lit "Run error:"); PE (AttributeError (lit "run"))]])
        | Some f =>
            (Ok tt,
             mk (modules fw) (metadata fw)
                (Some (ModuleInstance.with_options inst
                         (snd (f (session fw) (ModuleInstance.options inst)))))
                (snd (fst (f (session fw) (ModuleInstance.options inst)))),
             Call (ModuleInstance.name inst) (session fw)
                  (ModuleInstance.options inst)
             :: match fst (fst (f (session fw)
                                  (ModuleInstance.options inst))) with
                | Ok _ => []
                | Raise e => [Print [PS (lit "Run error:"); PE e]]
                end)
        end
    end.
Proof.
  unfold cmd_run, ModuleInstance.run, try_except, bind, get_state, print.
  destruct (loaded_module fw) as [inst|] eqn:Hl; [|reflexivity].
  destruct (run_attr (ModuleInstance.module inst)) as [f|].
  - destruct (f (session fw) (ModuleInstance.options inst)) as [[r s'] o'].
    destruct r as [[]|e]; reflexivity.
  - cbn. rewrite <- Hl. now rewrite state_eta.
Qed.

Lemma cmd_back_total args fw :
  cmd_back args fw
  = match loaded_module fw with
    | None => (Ok tt, fw, [Print [PS (lit "No module loaded.")]])
    | Some inst =>
        (Ok tt, with_loaded_module fw None,
         [Print [PS (lit "Unloaded " ++ ModuleInstance.name inst)]])
    end.
Proof.
  unfold cmd_back, bind, get_state, put_state, print.
  destruct (loaded_module fw); reflexivity.
Qed.

Lemma cmd_scan_total env args fw :
  cmd_scan env args fw
  = (Ok tt, state_of (scan_modules env fw),
     [Print [PS (lit "Scanned "
                 ++ str_of_nat
                      (length (modules (state_of (scan_modules env fw))))
                 ++ lit " modules.")]]).
Proof. reflexivity. Qed.

Lemma for_each_print {S A} (f : A -> str) (l : list A) (s : S) :
  for_each l (fun x => print [PS (f x)]) s
  = (Ok tt, s, map (fun x => Print [PS (f x)]) l).
Proof.
  induction l as [|x l IH]; [reflexivity|].
  cbn [for_each]. unfold bind, print at 1. now rewrite IH.
Qed.

Lemma cmd_show_total args fw :
  Listing.cmd_show args fw
  = (Ok tt, fw,
     Print [PS (lit "Available modules:")]
     :: map (fun kv => Print [PS (Listing.show_line kv)])
            (Fmt.sorted (items (metadata fw)))).
Proof.
  unfold Listing.cmd_show, bind, get_state, print at 1.
  now rewrite for_each_print.
Qed.

Lemma for_each_cons {S A} (x : A) (l : list A) (body : A -> M S unit) s :
  for_each (x :: l) body s
  = match body x s with
    | (Ok _, s1, o1) =>
        let '(r, s2, o2) := for_each l body s1 in (r, s2, o1 ++ o2)
    | (Raise e, s1, o1) => (Raise e, s1, o1)
    end.
Proof. reflexivity. Qed.

Lemma line_step {S} (r : result str) (s : S) :
  (line <- lift r ;; print [PS line])%py s
  = match r with
    | Ok line => (Ok tt, s, [Print [PS line]])
    | Raise e => (Raise e, s, [])
    end.
Proof. destruct r; reflexivity. Qed.

(** The loop of [cmd_options]: it prints the lines up to the first one
    that cannot be formatted, and keeps the state. *)
Lemma for_each_lines {S} (g : str * dict pyval -> result str)
  (l : list (str * dict pyval)) (s : S) :
  exists printed,
    for_each l (fun kv => line <- lift (g kv) ;; print [PS line])%py s
    = (match find (fun kv => match g kv with
                             | Ok _ => false
                             | Raise _ => true
                             end) l with
       | None => Ok tt
       | Some kv => match g kv with Ok _ => Ok tt | Raise e => Raise e end
       end,
       s, map (fun line => Print [PS line]) printed)
    /\ match find (fun kv => match g kv with
                             | Ok _ => false
                             | Raise _ => true
                             end) l with
       | None => length printed = length l
       | Some _ => length printed < length l
       end.
Proof.
  induction l as [|kv l IH].
  - exists []. now split.
  - destruct IH as (printed & Hf & Hlen).
    rewrite for_each_cons, line_step. cbn [find].
    destruct (g kv) as [line|e] eqn:Hg.
    + rewrite Hf. exists (line :: printed). split; [reflexivity|].
      destruct (find _ l); simpl; lia.
    + exists []. rewrite Hg. split; [reflexivity|]. simpl. lia.
Qed.

End CommandFacts.

(* ================================================================== *)
(** * Further properties: the registry *)
(* ================================================================== *)

Section RegistryExtras.

Import LazyFramework.

Lemma scan_fold_frame env l : forall s,
  loaded_module (fold_left (scan_step env) l s) = loaded_module s
  /\ session (fold_left (scan_step env) l s) = session s.
Proof.
  induction l as [|d l IH]; intros s; simpl; [now split|].
  destruct (IH (scan_step env s d)) as [-> ->]. now split.
Qed.

Lemma scan_fold_registry env l : forall s s',
  modules s = modules s' -> metadata s = metadata s' ->
  modules (fold_left (scan_step env) l s)
  = modules (fold_left (scan_step env) l s')
  /\ metadata (fold_left (scan_step env) l s)
     = metadata (fold_left (scan_step env) l s').
Proof.
  induction l as [|d l IH]; intros s s' Hm He; simpl; [now split|].
  apply IH; unfold scan_step, scan_file; simpl; now rewrite ?Hm, ?He.
Qed.

Lemma state_ext (a b : LazyFramework.t) :
  modules a = modules b -> metadata a = metadata b ->
  loaded_module a = loaded_module b -> session a = session b -> a = b.
Proof. destruct a, b; simpl; intros; now subst. Qed.

Lemma scan_replaces_registry_frame env fw :
  loaded_module (state_of (scan_modules env fw)) = loaded_module fw
  /\ session (state_of (scan_modules env fw)) = session fw.
Proof.
  rewrite scan_modules_discovered. unfold state_of; cbn [fst snd].
  destruct (scan_fold_frame env (discovered env) (with_registry fw [] []))
    as [-> ->]. now split.
Qed.

(** X7. A scan builds the registry from the files alone: whatever the
    registry held before, the two maps come out the same; the loaded
    session and the session context are not touched; and a second scan
    of the same files changes nothing. *)
Theorem scan_replaces_registry (env : Env) (fw fw' : LazyFramework.t) :
  modules (state_of (scan_modules env fw))
  = modules (state_of (scan_modules env fw'))
  /\ metadata (state_of (scan_modules env fw))
     = metadata (state_of (scan_modules env fw'))
  /\ loaded_module (state_of (scan_modules env fw)) = loaded_module fw
  /\ session (state_of (scan_modules env fw)) = session fw
  /\ state_of (scan_modules env (state_of (scan_modules env fw)))
     = state_of (scan_modules env fw).
Proof.
  assert (Hreg : forall a b,
             modules (state_of (scan_modules env a))
             = modules (state_of (scan_modules env b))
             /\ metadata (state_of (scan_modules env a))
                = metadata (state_of (scan_modules env b))).
  { intros a b. rewrite !scan_modules_discovered.
    unfold state_of; cbn [fst snd]. now apply scan_fold_registry. }
  assert (Hfr : forall a,
             loaded_module (state_of (scan_modules env a)) = loaded_module a
             /\ session (state_of (scan_modules env a)) = session a).
  { intros a. rewrite scan_modules_discovered.
    unfold state_of; cbn [fst snd].
    destruct (scan_fold_frame env (discovered env) (with_registry a [] []))
      as [-> ->]. now split. }
  destruct (Hreg fw fw') as [H1 H2]. destruct (Hfr fw) as [H3 H4].
  repeat split; auto.
  destruct (Hreg (state_of (scan_modules env fw)) fw) as [H5 H6].
  destruct (Hfr (state_of (scan_modules env fw))) as [H7 H8].
  apply state_ext; congruence.
Qed.

(** X8. After a scan, a key that no discovered file has is in neither
    map, whatever the registry held before: the key of a file that is gone
    does not survive. *)
Theorem scan_forgets_missing_files
  (env : Env) (fw : LazyFramework.t) (k : str) :
  (forall d, In d (discovered env) -> key_of_file env d <> k) ->
  get (modules (state_of (scan_modules env fw))) k = None
  /\ get (metadata (state_of (scan_modules env fw))) k = None.
Proof.
  intros Hk. rewrite scan_modules_discovered.
  unfold state_of; cbn [fst snd].
  destruct (scan_fold_keys env (discovered env) (with_registry fw [] []))
    as [Hkeys _]; [reflexivity|constructor|].
  assert (Hn : ~ In k (keys (modules (fold_left (scan_step env)
                                        (discovered env)
                                        (with_registry fw [] []))))).
  { rewrite scan_fold_In. simpl. intros [[]|(d & Hd & E)].
    now apply (Hk d). }
  split; apply get_None_keys; [exact Hn|]. now rewrite <- Hkeys.
Qed.

Lemma NoDup_map_inj_on {A B} (f : A -> B) (l : list A) :
  (forall x y, In x l -> In y l -> f x = f y -> x = y) ->
  NoDup l -> NoDup (map f l).
Proof.
  intros Hinj Hnd. induction Hnd as [|x l Hx Hnd IH]; simpl; constructor.
  - intros Hin. apply in_map_iff in Hin as (y & E & Hy).
    assert (y = x) by (apply Hinj; simpl; auto). now subst.
  - apply IH. intros a b Ha Hb. apply Hinj; simpl; auto.
Qed.

Lemma NoDup_discovered env :
  (forall root, NoDup (rglob env root)) -> NoDup (discovered env).
Proof.
  intros Hnd. unfold discovered, roots. simpl. rewrite app_nil_r.
  apply NoDup_app.
  - apply NoDup_map_inj_on; [|apply Hnd]. intros x y _ _ E. now inversion E.
  - apply NoDup_map_inj_on; [|apply Hnd]. intros x y _ _ E. now inversion E.
  - intros d H1 H2. apply in_map_iff in H1 as (x & <- & _).
    apply in_map_iff in H2 as (y & E & _). discriminate E.
Qed.

Lemma scan_fold_fresh_keys env l : forall s,
  NoDup (map (key_of_file env) l) ->
  (forall d, In d l -> ~ In (key_of_file env d) (keys (modules s))) ->
  keys (modules (fold_left (scan_step env) l s))
  = keys (modules s) ++ map (key_of_file env) l.
Proof.
  induction l as [|d l IH]; intros s Hnd Hfresh; simpl.
  - now rewrite app_nil_r.
  - inversion Hnd as [|? ? Hd Hnd']; subst.
    assert (Hk : keys (modules (scan_step env s d))
                 = keys (modules s) ++ [key_of_file env d]).
    { unfold scan_step, scan_file; simpl. apply keys_set_new.
      apply Hfresh. now left. }
    rewrite IH; [rewrite Hk; now rewrite <- app_assoc|exact Hnd'|].
    intros d' Hd'. rewrite Hk, in_app_iff. intros [H|[H|[]]].
    + apply (Hfresh d'); [now right|exact H].
    + apply Hd. rewrite H. now apply in_map.
Qed.

(** X9. When the enumeration of each root lists a file once (and relative
    paths are portable), the registry holds the discovered files in the
    order of their discovery, one key per file, and [scan] prints one
    line with their number in decimal digits. *)
Theorem scan_keeps_discovery_order
  (env : Env) (fw : LazyFramework.t) (args : list str) :
  paths_portable env ->
  (forall root, NoDup (rglob env root)) ->
  keys (modules (state_of (scan_modules env fw)))
  = map (key_of_file env) (discovered env)
  /\ cmd_scan env args fw
     = (Ok tt, state_of (scan_modules env fw),
        [Print [PS (lit "Scanned " ++ str_of_nat (length (discovered env))
                    ++ lit " modules.")]]).
Proof.
  intros Hp Hnd.
  assert (Hk : keys (modules (state_of (scan_modules env fw)))
               = map (key_of_file env) (discovered env)).
  { rewrite scan_modules_discovered. unfold state_of; cbn [fst snd].
    rewrite scan_fold_fresh_keys; [reflexivity| |intros d _ []].
    apply NoDup_map_inj_on; [|now apply NoDup_discovered].
    intros x y Hx Hy. now apply key_of_file_inj. }
  split; [exact Hk|].
  rewrite cmd_scan_total. do 5 f_equal.
  rewrite <- (length_map fst (modules (state_of (scan_modules env fw)))).
  fold (keys (modules (state_of (scan_modules env fw)))).
  now rewrite Hk, length_map.
Qed.

End RegistryExtras.

(* ================================================================== *)
(** * Further properties: the commands and the session *)
(* ================================================================== *)

Section SessionExtras.

Import LazyFramework.

Lemma cmd_use_total env args fw :
  exists o,
    cmd_use env args fw = (Ok tt, fw, o)
    \/ exists inst,
         cmd_use env args fw = (Ok tt, with_loaded_module fw (Some inst), o)
         /\ OPTIONS (ModuleInstance.module inst) <> None.
Proof.
  destruct args as [|key rest]; [eexists; left; reflexivity|].
  rewrite cmd_use_cases. cbv zeta.
  destruct (get (modules fw) (candidate_key fw key)) as [p|];
    [|eexists; left; reflexivity].
  destruct (exec_module env p) as [m|e]; [|eexists; left; reflexivity].
  destruct (OPTIONS m) as [opts|] eqn:Ho; [|eexists; left; reflexivity].
  eexists; right. eexists. split; [reflexivity|].
  destruct (enter_defaults_name_module opts
              (ModuleInstance.mk (candidate_key fw key) m [])) as [_ ->].
  simpl. congruence.
Qed.

Lemma cmd_options_state args fw :
  state_of (Listing.cmd_options args fw) = fw.
Proof.
  unfold Listing.cmd_options. unfold bind at 1. unfold get_state at 1.
  destruct (loaded_module fw) as [inst|] eqn:Hl; [|reflexivity].
  unfold bind at 1. unfold print at 1. unfold bind at 1. unfold print at 1.
  unfold bind at 1.
  unfold on_loaded, ModuleInstance.get_options,
    ModuleInstance.module_OPTIONS. unfold bind at 1. unfold get_state at 1.
  unfold bind at 1.
  destruct (OPTIONS (ModuleInstance.module inst)) as [opts|].
  - unfold ret at 1 2. cbv beta iota.
    rewrite (with_loaded_module_same fw inst Hl).
    match goal with
    | |- context [for_each ?l _ fw] =>
        destruct (for_each_lines
                    (fun kv => Listing.options_line (fst kv) (snd kv)) l fw)
          as (printed & -> & _)
    end.
    reflexivity.
  - unfold raise. cbv beta iota.
    now rewrite (with_loaded_module_same fw inst Hl).
Qed.

(** X2. What a command leaves alone.  Only [scan] changes the registry;
    only [run] changes the session context; [scan], [search], [show] and
    [options] leave the loaded session as it is ([options] even when it
    raises). *)
Theorem commands_frame (env : Env) (c : command) (fw : LazyFramework.t) :
  match c with
  | Scan _ => True
  | _ =>
      modules (state_of (execute env c fw)) = modules fw
      /\ metadata (state_of (execute env c fw)) = metadata fw
  end
  /\ match c with
     | Run _ => True
     | _ => session (state_of (execute env c fw)) = session fw
     end
  /\ match c with
     | Scan _ | SearchFor _ | Show _ | Options _ =>
         loaded_module (state_of (execute env c fw)) = loaded_module fw
     | _ => True
     end.
Proof.
  destruct c as [args|args|args|args|args|args|args|args]; cbn [execute].
  - destruct (cmd_use_total env args fw) as (o & [->|(inst & -> & _)]);
      repeat split.
  - rewrite cmd_set_total. destruct (loaded_module fw);
      [|repeat split].
    destruct args as [|opt [|w ws]]; try (repeat split; fail).
    destruct (OPTIONS _); [|repeat split].
    destruct (mem opt d); repeat split.
  - rewrite cmd_run_total. destruct (loaded_module fw); [|repeat split].
    destruct (run_attr _); repeat split.
  - rewrite cmd_back_total. destruct (loaded_module fw); repeat split.
  - rewrite cmd_scan_total.
    destruct (scan_replaces_registry_frame env fw) as [H1 H2].
    repeat split; assumption.
  - destruct args; repeat split.
  - rewrite cmd_show_total. repeat split.
  - rewrite cmd_options_state. repeat split.
Qed.

Lemma commands_frame_registry env c fw :
  match c with
  | Scan _ => True
  | _ =>
      modules (state_of (execute env c fw)) = modules fw
      /\ metadata (state_of (execute env c fw)) = metadata fw
  end.
Proof.
  destruct c as [args|args|args|args|args|args|args|args]; cbn [execute].
  - destruct (cmd_use_total env args fw) as (o & [->|(inst & -> & _)]);
      now split.
  - rewrite cmd_set_total. destruct (loaded_module fw); [|now split].
    destruct args as [|opt [|w ws]]; try (now split).
    destruct (OPTIONS _); [|now split]. destruct (mem opt d); now split.
  - rewrite cmd_run_total. destruct (loaded_module fw); [|now split].
    destruct (run_attr _); now split.
  - rewrite cmd_back_total. destruct (loaded_module fw); now split.
  - exact I.
  - destruct args; now split.
  - rewrite cmd_show_total. now split.
  - rewrite cmd_options_state. now split.
Qed.

End SessionExtras.

Section SessionExtras2.

Import LazyFramework.

Lemma cmd_options_unloaded args fw :
  loaded_module fw = None ->
  Listing.cmd_options args fw
  = (Ok tt, fw, [Print [PS (lit "No module loaded.")]]).
Proof.
  intros Hl. unfold Listing.cmd_options, bind, get_state, print.
  now rewrite Hl.
Qed.

(** X3. With no module loaded, [set], [run], [back] and [options] print
    the one line that says so and change nothing, whatever their
    arguments. *)
Theorem unloaded_commands_do_nothing
  (fw : LazyFramework.t) (args : list str) :
  loaded_module fw = None ->
  cmd_set args fw = (Ok tt, fw, [Print [PS (lit "No module loaded.")]])
  /\ cmd_run args fw = (Ok tt, fw, [Print [PS (lit "No module loaded.")]])
  /\ cmd_back args fw = (Ok tt, fw, [Print [PS (lit "No module loaded.")]])
  /\ Listing.cmd_options args fw
     = (Ok tt, fw, [Print [PS (lit "No module loaded.")]]).
Proof.
  intros Hl.
  rewrite cmd_set_total, cmd_run_total, cmd_back_total,
    (cmd_options_unloaded args fw Hl), Hl.
  repeat split.
Qed.

(** X4. From a state with no module loaded, [use] followed by [back]
    brings the engine back to that state, whether the [use] succeeded or
    not. *)
Theorem use_then_back_restores
  (env : Env) (fw : LazyFramework.t) (args args' : list str) :
  loaded_module fw = None ->
  state_of (cmd_back args' (state_of (cmd_use env args fw))) = fw.
Proof.
  intros Hl. rewrite cmd_back_total.
  destruct (cmd_use_total env args fw) as (o & [->|(inst & -> & _)]);
    unfold state_of; cbn [fst snd].
  - now rewrite Hl.
  - cbn [loaded_module with_loaded_module fst snd].
    unfold with_loaded_module; cbn. rewrite <- Hl. apply state_eta.
Qed.

(** X5. A successful [use] replaces the loaded session whole: the result
    does not depend on what was loaded before, so the overrides of the
    previous session are gone, and a [use] of the same name right after
    gives the same state again. *)
Theorem use_discards_previous_session
  (env : Env) (fw : LazyFramework.t) (key : str) (rest : list str) (k : str)
  (previous : option ModuleInstance.t) :
  trace_of (cmd_use env (key :: rest) fw) = loaded_line k ->
  cmd_use env (key :: rest) (with_loaded_module fw previous)
  = cmd_use env (key :: rest) fw
  /\ cmd_use env (key :: rest) (state_of (cmd_use env (key :: rest) fw))
     = cmd_use env (key :: rest) fw.
Proof.
  intros Hu.
  destruct (cmd_use_loaded_inv env fw key rest k Hu)
    as (p & m & opts & -> & Hp & He & Ho & Hst).
  assert (H : forall l,
             cmd_use env (key :: rest) (with_loaded_module fw l)
             = cmd_use env (key :: rest) fw).
  { intros l. rewrite !cmd_use_cases. cbv zeta.
    change (candidate_key (with_loaded_module fw l) key)
      with (candidate_key fw key).
    change (modules (with_loaded_module fw l)) with (modules fw).
    rewrite Hp, He, Ho. reflexivity. }
  split; [apply H|]. rewrite Hst. apply H.
Qed.

(** X6. [run] keeps the session loaded, with its name and module, and
    keeps the registry; and since the entry point receives the option
    store and the session context themselves, what it leaves in them
    stays: it is what the next [run] hands over.  An exception of the
    entry point is printed after the call, and none gets out. *)
Theorem run_keeps_what_the_module_leaves
  (fw : LazyFramework.t) (inst : ModuleInstance.t) (f : run_fn)
  (args args' : list str) :
  loaded_module fw = Some inst ->
  run_attr (ModuleInstance.module inst) = Some f ->
  cmd_run args fw
  = (Ok tt,
     mk (modules fw) (metadata fw)
        (Some (ModuleInstance.mk (ModuleInstance.name inst)
                 (ModuleInstance.module inst)
                 (snd (f (session fw) (ModuleInstance.options inst)))))
        (snd (fst (f (session fw) (ModuleInstance.options inst)))),
     Call (ModuleInstance.name inst) (session fw)
          (ModuleInstance.options inst)
     :: match fst (fst (f (session fw) (ModuleInstance.options inst))) with
        | Ok _ => []
        | Raise e => [Print [PS (lit "Run error:"); PE e]]
        end)
  /\ exists tail,
       trace_of (cmd_run args' (state_of (cmd_run args fw)))
       = Call (ModuleInstance.name inst)
              (snd (fst (f (session fw) (ModuleInstance.options inst))))
              (snd (f (session fw) (ModuleInstance.options inst)))
         :: tail.
Proof.
  intros Hl Hf.
  assert (H : cmd_run args fw = _) by apply cmd_run_total.
  rewrite Hl, Hf in H. split; [exact H|].
  rewrite H. unfold state_of; cbn [fst snd].
  rewrite cmd_run_total. cbn [loaded_module ModuleInstance.with_options
                                ModuleInstance.module ModuleInstance.name
                                ModuleInstance.options session].
  rewrite Hf. unfold trace_of; cbn [snd]. eexists; reflexivity.
Qed.

Lemma key_of_file_prefixed env d :
  In (fst d) roots -> prefixed (key_of_file env d) = true.
Proof.
  destruct d as [[root prefix] r]. unfold roots. cbn [fst].
  intros [E|[E|[]]]; inversion E; reflexivity.
Qed.

Lemma candidate_key_prefixed fw key :
  prefixed key = true -> candidate_key fw key = key.
Proof.
  unfold prefixed, candidate_key. now intros ->.
Qed.

(** The module of the session a command leaves loaded either has just
    been loaded, with its options mapping, or was loaded before. *)
Lemma loaded_module_after env c s inst' :
  loaded_module (state_of (execute env c s)) = Some inst' ->
  OPTIONS (ModuleInstance.module inst') <> None
  \/ exists inst,
       loaded_module s = Some inst
       /\ ModuleInstance.module inst' = ModuleInstance.module inst.
Proof.
  destruct c as [args|args|args|args|args|args|args|args]; cbn [execute].
  - destruct (cmd_use_total env args s) as (o & [->|(i & -> & Ho)]);
      unfold state_of; cbn [fst snd].
    + intros H. right. now exists inst'.
    + cbn. intros E. inversion E; subst. now left.
  - rewrite cmd_set_total.
    destruct (loaded_module s) as [i|] eqn:Hl.
    + destruct args as [|opt [|w ws]];
        try (unfold state_of; cbn [fst snd]; rewrite Hl; intros E;
             inversion E; subst; right; now exists inst').
      destruct (OPTIONS (ModuleInstance.module i)) as [opts|].
      * destruct (mem opt opts); unfold state_of; cbn [fst snd].
        -- cbn. intros E. inversion E; subst. right. now exists i.
        -- rewrite Hl. intros E. inversion E; subst. right. now exists inst'.
      * unfold state_of; cbn [fst snd]. rewrite Hl. intros E.
        inversion E; subst. right. now exists inst'.
    + unfold state_of; cbn [fst snd]. rewrite Hl. discriminate.
  - rewrite cmd_run_total.
    destruct (loaded_module s) as [i|] eqn:Hl.
    + destruct (run_attr (ModuleInstance.module i));
        unfold state_of; cbn [fst snd].
      * cbn. intros E. inversion E; subst. right. now exists i.
      * rewrite Hl. intros E. inversion E; subst. right. now exists inst'.
    + unfold state_of; cbn [fst snd]. rewrite Hl. discriminate.
  - rewrite cmd_back_total.
    destruct (loaded_module s) as [i|] eqn:Hl;
      unfold state_of; cbn [fst snd].
    + cbn. discriminate.
    + rewrite Hl. discriminate.
  - rewrite cmd_scan_total. unfold state_of at 1; cbn [fst snd].
    rewrite (proj1 (scan_replaces_registry_frame env s)).
    intros H. right. now exists inst'.
  - destruct args; unfold state_of; cbn [fst snd]; intros H; right;
      now exists inst'.
  - rewrite cmd_show_total. unfold state_of; cbn [fst snd]. intros H.
    right. now exists inst'.
  - rewrite cmd_options_state. intros H. right. now exists inst'.
Qed.

(** X13. In every state the engine can reach (it starts by a scan; any
    commands follow, each finding the files as they then are), the two
    maps of the registry have the same keys, each once; every key has one
    of the two prefixes, so [use] looks up a listed key as it is; and a
    loaded module always has an options mapping. *)
Theorem reachable_states_are_well_formed (s : LazyFramework.t) :
  reachable s ->
  keys (modules s) = keys (metadata s)
  /\ NoDup (keys (modules s))
  /\ (forall k, In k (keys (modules s)) ->
        prefixed k = true /\ candidate_key s k = k)
  /\ forall inst,
       loaded_module s = Some inst ->
       OPTIONS (ModuleInstance.module inst) <> None.
Proof.
  assert (Hscan : forall env fw,
             keys (modules (state_of (scan_modules env fw)))
             = keys (metadata (state_of (scan_modules env fw)))
             /\ NoDup (keys (modules (state_of (scan_modules env fw))))
             /\ forall k,
                  In k (keys (modules (state_of (scan_modules env fw)))) ->
                  prefixed k = true).
  { intros env fw. rewrite scan_modules_discovered.
    unfold state_of; cbn [fst snd].
    destruct (scan_fold_keys env (discovered env) (with_registry fw [] []))
      as [Hk Hn]; [reflexivity|constructor|].
    split; [exact Hk|]. split; [exact Hn|].
    intros k Hin. apply scan_fold_In in Hin as [[]|(d & Hd & <-)].
    apply key_of_file_prefixed. now apply In_discovered in Hd. }
  assert (Hgoal : forall s,
             (keys (modules s) = keys (metadata s)
              /\ NoDup (keys (modules s))
              /\ (forall k, In k (keys (modules s)) -> prefixed k = true)
              /\ forall inst, loaded_module s = Some inst ->
                   OPTIONS (ModuleInstance.module inst) <> None) ->
             keys (modules s) = keys (metadata s)
             /\ NoDup (keys (modules s))
             /\ (forall k, In k (keys (modules s)) ->
                   prefixed k = true /\ candidate_key s k = k)
             /\ forall inst, loaded_module s = Some inst ->
                  OPTIONS (ModuleInstance.module inst) <> None).
  { intros s0 (H1 & H2 & H3 & H4). repeat split; auto.
    apply candidate_key_prefixed; auto. }
  intros Hr. apply Hgoal. clear Hgoal.
  induction Hr as [env|env c s Hr (I1 & I2 & I3 & I4)].
  - unfold init. destruct (Hscan env (mk [] [] None
        [(lit "user",
          PyStr match getenv_USER env with
                | Some u => u
                | None => lit "unknown"
                end)])) as (H1 & H2 & H3).
    repeat split; auto.
    intros inst Hl.
    rewrite (proj1 (scan_replaces_registry_frame env _)) in Hl.
    discriminate Hl.
  - assert (Hl : forall inst,
               loaded_module (state_of (execute env c s)) = Some inst ->
               OPTIONS (ModuleInstance.module inst) <> None).
    { intros inst' H'.
      destruct (loaded_module_after env c s inst' H')
        as [Ho|(inst & Hs & ->)]; [exact Ho|now apply I4]. }
    destruct c as [args|args|args|args|args|args|args|args].
    5:{ cbn [execute] in *. rewrite cmd_scan_total in *.
        unfold state_of in *; cbn [fst snd] in *.
        destruct (Hscan env s) as (H1 & H2 & H3).
        unfold state_of in *; cbn [fst snd] in *.
        repeat split; auto. }
    all: match goal with
         | |- context [execute ?e ?c ?s0] =>
             destruct (commands_frame_registry e c s0) as [E1 E2]
         end;
         rewrite E1, E2; repeat split; auto.
Qed.

(** X14. After a scan, every discovered file can be loaded by its key as
    listed: [use] looks the key up unchanged and finds the file's
    location.  Typed without a prefix, the relative path of a file finds
    the file under modules/ of that path if there is one, and the file
    itself otherwise: modules come before examples. *)
Theorem use_resolves_listed_files
  (env : Env) (fw : LazyFramework.t) (d : (Root * str) * str) :
  paths_portable env ->
  In d (discovered env) ->
  candidate_key (state_of (scan_modules env fw)) (key_of_file env d)
  = key_of_file env d
  /\ get (modules (state_of (scan_modules env fw))) (key_of_file env d)
     = Some (path_of d)
  /\ (prefixed (typed_path env d) = false ->
      candidate_key (state_of (scan_modules env fw)) (typed_path env d)
      = if mem (lit "modules/" ++ typed_path env d)
               (modules (state_of (scan_modules env fw)))
        then lit "modules/" ++ typed_path env d
        else key_of_file env d).
Proof.
  intros Hp Hd. pose proof Hd as Hd'. apply In_discovered in Hd' as [Hr _].
  split; [apply candidate_key_prefixed, key_of_file_prefixed, Hr|].
  assert (Hget : get (modules (state_of (scan_modules env fw)))
                     (key_of_file env d) = Some (path_of d)).
  { rewrite scan_modules_discovered. unfold state_of; cbn [fst snd].
    apply (scan_fold_get env (discovered env) _ d Hd).
    intros d' Hd'' E. f_equal. now apply (key_of_file_inj env). }
  split; [exact Hget|].
  intros Hnp. unfold candidate_key. fold (prefixed (typed_path env d)).
  rewrite Hnp. cbn [map find].
  change (lit "modules" ++ lit "/" ++ typed_path env d)
    with (lit "modules/" ++ typed_path env d).
  destruct (mem (lit "modules/" ++ typed_path env d) _) eqn:Hm;
    [reflexivity|].
  assert (Hk : mem (key_of_file env d)
                   (modules (state_of (scan_modules env fw))) = true).
  { unfold mem. now rewrite Hget. }
  destruct d as [[root prefix] r]. unfold roots in Hr. cbn [fst] in Hr.
  destruct Hr as [E|[E|[]]]; inversion E; subst root prefix.
  - exfalso. unfold key_of_file, key_of, typed_path in *; cbn [fst snd] in *.
    change (lit "modules" ++ lit "/" ++ ?x) with (lit "modules/" ++ x) in Hk.
    congruence.
  - change (lit "examples" ++ lit "/" ++ typed_path env (EXAMPLES_DIR, lit "examples", r))
      with (key_of_file env (EXAMPLES_DIR, lit "examples", r)).
    now rewrite Hk.
Qed.

End SessionExtras2.

(* ================================================================== *)
(** * Further properties: the listings *)
(* ================================================================== *)

Section ListingExtras.

Import LazyFramework Fmt.

Lemma str_ltb_irrefl (a : str) : str_ltb a a = false.
Proof.
  induction a as [|x a IH]; [reflexivity|]. cbn [str_ltb].
  now rewrite N.ltb_irrefl, N.eqb_refl, IH.
Qed.

Lemma str_ltb_trans (a b c : str) :
  str_ltb a b = true -> str_ltb b c = true -> str_ltb a c = true.
Proof.
  revert b c. induction a as [|x a IH]; intros [|y b] [|z c];
    cbn [str_ltb]; try discriminate; try reflexivity.
  rewrite !orb_true_iff, !andb_true_iff, !N.ltb_lt, !N.eqb_eq.
  intros [H1|[H1 H1']] [H2|[H2 H2']]; subst.
  - left. lia.
  - now left.
  - now left.
  - right. split; [reflexivity|]. now apply (IH b).
Qed.

(** Two strings of which neither comes before the other are equal. *)
Lemma str_ltb_total (a b : str) :
  str_ltb a b = false -> str_ltb b a = false -> a = b.
Proof.
  revert b. induction a as [|x a IH]; intros [|y b]; cbn [str_ltb];
    try discriminate; try reflexivity.
  rewrite !orb_false_iff, !andb_false_iff, !N.ltb_ge, !N.eqb_neq.
  intros [H1 H1'] [H2 H2'].
  assert (x = y) by lia. subst y. f_equal.
  apply IH; [destruct H1'|destruct H2']; congruence.
Qed.

Lemma key_le_trans {V} (x y z : str * V) :
  str_ltb (fst y) (fst x) = false -> str_ltb (fst z) (fst y) = false ->
  str_ltb (fst z) (fst x) = false.
Proof.
  intros Hxy Hyz. apply not_true_iff_false. intros Hzx.
  destruct (str_ltb (fst x) (fst y)) eqn:E.
  - rewrite (str_ltb_trans _ _ _ Hzx E) in Hyz. discriminate.
  - rewrite <- (str_ltb_total _ _ E Hxy) in Hyz. congruence.
Qed.

Lemma insert_perm {V} (kv : str * V) l : Permutation (insert kv l) (kv :: l).
Proof.
  induction l as [|x l IH]; cbn [insert]; [reflexivity|].
  destruct (str_ltb (fst x) (fst kv)); [|reflexivity].
  rewrite IH. apply perm_swap.
Qed.

Lemma sorted_perm {V} (l : list (str * V)) : Permutation (sorted l) l.
Proof.
  induction l as [|x l IH]; [reflexivity|]. cbn [sorted fold_right].
  fold (sorted l). rewrite insert_perm. now constructor.
Qed.

Lemma insert_sorted {V} (kv : str * V) l :
  StronglySorted (fun a b => str_ltb (fst b) (fst a) = false) l ->
  StronglySorted (fun a b => str_ltb (fst b) (fst a) = false) (insert kv l).
Proof.
  induction 1 as [|x l Hs IH Hall]; cbn [insert].
  - repeat constructor.
  - destruct (str_ltb (fst x) (fst kv)) eqn:E.
    + constructor; [exact IH|].
      apply (Permutation_Forall (Permutation_sym (insert_perm kv l))).
      constructor; [|exact Hall].
      apply not_true_iff_false. intros H.
      pose proof (str_ltb_trans _ _ _ E H) as C.
      rewrite str_ltb_irrefl in C. discriminate C.
    + constructor; [now constructor|].
      constructor; [exact E|].
      eapply Forall_impl; [|exact Hall]. intros z Hz.
      now apply (key_le_trans kv x z).
Qed.

Lemma sorted_sorted {V} (l : list (str * V)) :
  StronglySorted (fun a b => str_ltb (fst b) (fst a) = false) (sorted l).
Proof.
  induction l as [|x l IH]; [constructor|].
  cbn [sorted fold_right]. now apply insert_sorted.
Qed.

(** X10. [show] prints its heading and then one line per entry of the
    registry, in ascending order of the keys (no later key comes before
    an earlier one in the order of the code points), each line made of
    the key padded to 40 columns and the description; the state is not
    changed. *)
Theorem show_lists_in_key_order (fw : LazyFramework.t) (args : list str) :
  Listing.cmd_show args fw
  = (Ok tt, fw,
     Print [PS (lit "Available modules:")]
     :: map (fun kv => Print [PS (Listing.show_line kv)])
            (sorted (items (metadata fw))))
  /\ Permutation (sorted (items (metadata fw))) (items (metadata fw))
  /\ StronglySorted (fun a b => str_ltb (fst b) (fst a) = false)
       (sorted (items (metadata fw)))
  /\ forall kv : str * Meta,
       length (fst kv) <= 40 ->
       Listing.show_line kv
       = lit "  " ++ fst kv ++ repeat blank (40 - length (fst kv))
         ++ lit " " ++ description (snd kv)
       /\ length (Listing.show_line kv) = 43 + length (description (snd kv)).
Proof.
  split; [apply cmd_show_total|]. split; [apply sorted_perm|].
  split; [apply sorted_sorted|].
  intros kv Hlen. unfold Listing.show_line, ljust.
  split; [now rewrite <- !app_assoc|].
  rewrite !length_app, repeat_length.
  change (length (lit "  ")) with 2. change (length (lit " ")) with 1.
  unfold str, char in *. lia.
Qed.

(** X18. An entry of [getOptions()] carries the fields of the schema
    entry unchanged next to the value; and since the fields are laid over
    the value, a schema entry that has a field called [value] of its own
    shows that field, not the option's current value. *)
Theorem get_options_keeps_schema_fields
  (inst : ModuleInstance.t) (opts : dict option_meta) (k : str)
  (meta : option_meta) :
  OPTIONS (ModuleInstance.module inst) = Some opts ->
  get opts k = Some meta ->
  exists d entry,
    ModuleInstance.get_options inst = (Ok d, inst, [])
    /\ get d k = Some entry
    /\ (forall f, f <> lit "value" -> get entry f = get meta f)
    /\ get entry (lit "value")
       = Some match get meta (lit "value") with
              | Some x => x
              | None => ModuleInstance.current_value inst k meta
              end.
Proof.
  intros Ho Hk. eexists. eexists.
  split; [apply (get_options_cases inst opts Ho)|].
  rewrite (get_map_values
             (fun k v => update [(lit "value",
                                  ModuleInstance.current_value inst k v)] v)).
  rewrite Hk. cbn [option_map]. split; [reflexivity|].
  pose proof (OPTIONS_entry_NoDup _ opts k meta Ho Hk) as Hnd.
  split.
  - intros f Hf. rewrite get_update_NoDup by exact Hnd.
    destruct (get meta f); [reflexivity|]. simpl.
    destruct (str_eq_dec f (lit "value")); [contradiction|reflexivity].
  - rewrite get_update_NoDup by exact Hnd.
    destruct (get meta (lit "value")); [reflexivity|]. simpl.
    destruct (str_eq_dec (lit "value") (lit "value")); congruence.
Qed.

End ListingExtras.

Section OptionsListing.

Import LazyFramework Fmt.

Lemma find_map {A B} (p : B -> bool) (F : A -> B) (l : list A) :
  find p (map F l) = option_map F (find (fun x => p (F x)) l).
Proof.
  induction l as [|x l IH]; simpl; [reflexivity|].
  destruct (p (F x)); [reflexivity|exact IH].
Qed.

Lemma find_same_in {A} (p q : A -> bool) (l : list A) :
  (forall x, In x l -> p x = q x) -> find p l = find q l.
Proof.
  induction l as [|x l IH]; intros H; simpl; [reflexivity|].
  rewrite (H x) by now left. destruct (q x); [reflexivity|].
  apply IH. intros y Hy. apply H. now right.
Qed.

Lemma existsb_find {A} (p : A -> bool) (l : list A) :
  existsb p l = match find p l with Some _ => true | None => false end.
Proof.
  induction l as [|x l IH]; simpl; [reflexivity|].
  destruct (p x); [reflexivity|exact IH].
Qed.

(** The line of an option whose schema entry has no [value] field: it
    cannot be made exactly when the current value has no format of its
    own. *)
Lemma options_line_entry inst k (meta : option_meta) :
  get meta (lit "value") = None ->
  match Listing.options_line k
          (update [(lit "value", ModuleInstance.current_value inst k meta)]
                  meta) with
  | Ok _ => unformattable (ModuleInstance.current_value inst k meta) = None
  | Raise e =>
      exists class_name,
        unformattable (ModuleInstance.current_value inst k meta)
        = Some class_name
        /\ e = Exception (no_format_for class_name)
  end.
Proof.
  intros Hv. unfold Listing.options_line.
  rewrite (get_update_absent _ meta (lit "value") Hv). cbn [get].
  destruct (str_eq_dec (lit "value") (lit "value")); [|congruence].
  destruct (ModuleInstance.current_value inst k meta);
    cbn [format_width unformattable]; try reflexivity; eexists; eauto.
Qed.

Lemma cmd_options_cases args fw inst (opts : dict option_meta) :
  loaded_module fw = Some inst ->
  OPTIONS (ModuleInstance.module inst) = Some opts ->
  exists printed,
    Listing.cmd_options args fw
    = (match find (fun kv => match Listing.options_line (fst kv) (snd kv) with
                             | Ok _ => false
                             | Raise _ => true
                             end)
                  (map (fun kv =>
                          (fst kv,
                           update [(lit "value",
                                    ModuleInstance.current_value inst (fst kv)
                                      (snd kv))] (snd kv))) opts) with
       | None => Ok tt
       | Some kv =>
           match Listing.options_line (fst kv) (snd kv) with
           | Ok _ => Ok tt
           | Raise e => Raise e
           end
       end,
       fw,
       Print [PS (lit "Options for " ++ ModuleInstance.name inst ++ lit ":")]
       :: Print [PS Listing.options_header]
       :: map (fun line => Print [PS line]) printed)
    /\ match find (fun kv => match Listing.options_line (fst kv) (snd kv) with
                             | Ok _ => false
                             | Raise _ => true
                             end)
                  (map (fun kv =>
                          (fst kv,
                           update [(lit "value",
                                    ModuleInstance.current_value inst (fst kv)
                                      (snd kv))] (snd kv))) opts) with
       | None => length printed = length opts
       | Some _ => length printed < length opts
       end.
Proof.
  intros Hl Ho.
  unfold Listing.cmd_options. unfold bind at 1. unfold get_state at 1.
  rewrite Hl.
  unfold bind at 1. unfold print at 1. unfold bind at 1. unfold print at 1.
  unfold bind at 1. unfold on_loaded.
  rewrite (get_options_cases inst opts Ho).
  rewrite (with_loaded_module_same fw inst Hl). unfold items.
  match goal with
  | |- context [for_each ?l _ fw] =>
      destruct (for_each_lines
                  (fun kv => Listing.options_line (fst kv) (snd kv)) l fw)
        as (printed & -> & Hlen)
  end.
  exists printed. split; [reflexivity|].
  now rewrite length_map in Hlen.
Qed.

(** X11. [options] on a loaded session (schema entries without a field
    called [value]) never changes the state.  It prints the two headings
    and one line per option when every current value can be formatted (a
    string, an integer, a boolean); at the first option whose current
    value is [None] (no entry in the store and no default, or the value
    [None]) or another object whose class has no format of its own (a
    list, a tuple, a dict, bytes), it raises, uncaught, the [TypeError]
    of that class and stops before that option's line. *)
Theorem options_raises_on_unformattable
  (fw : LazyFramework.t) (inst : ModuleInstance.t)
  (opts : dict option_meta) (args : list str) :
  loaded_module fw = Some inst ->
  OPTIONS (ModuleInstance.module inst) = Some opts ->
  (forall k meta, get opts k = Some meta -> get meta (lit "value") = None) ->
  state_of (Listing.cmd_options args fw) = fw
  /\ outcome_of (Listing.cmd_options args fw)
     = match find (Listing.cannot_format inst) opts with
       | Some kv =>
           match unformattable
                   (ModuleInstance.current_value inst (fst kv) (snd kv)) with
           | Some class_name => Raise (Exception (no_format_for class_name))
           | None => Ok tt
           end
       | None => Ok tt
       end
  /\ exists printed,
       trace_of (Listing.cmd_options args fw)
       = Print [PS (lit "Options for " ++ ModuleInstance.name inst
                    ++ lit ":")]
         :: Print [PS Listing.options_header]
         :: map (fun line => Print [PS line]) printed
       /\ match find (Listing.cannot_format inst) opts with
          | Some _ => length printed < length opts
          | None => length printed = length opts
          end.
Proof.
  intros Hl Ho Hc. split; [apply cmd_options_state|].
  destruct (cmd_options_cases args fw inst opts Hl Ho) as (printed & -> & Hn).
  unfold outcome_of, trace_of; cbn [fst snd].
  assert (Hvalue : forall k meta, In (k, meta) opts ->
                                  get meta (lit "value") = None).
  { intros k meta Hin. apply (Hc k).
    apply get_In; [eapply OPTIONS_NoDup, Ho|exact Hin]. }
  assert (Hfind :
    find (fun kv => match Listing.options_line (fst kv) (snd kv) with
                    | Ok _ => false
                    | Raise _ => true
                    end)
         (map (fun kv =>
                 (fst kv,
                  update [(lit "value",
                           ModuleInstance.current_value inst (fst kv)
                             (snd kv))] (snd kv))) opts)
    = option_map
        (fun kv =>
           (fst kv,
            update [(lit "value",
                     ModuleInstance.current_value inst (fst kv) (snd kv))]
                   (snd kv)))
        (find (Listing.cannot_format inst) opts)).
  { rewrite find_map. f_equal. apply find_same_in.
    intros [k meta] Hin. unfold Listing.cannot_format. cbn [fst snd].
    pose proof (options_line_entry inst k meta (Hvalue k meta Hin)) as H.
    destruct (Listing.options_line k _); [now rewrite H|].
    destruct H as (cls & -> & _). reflexivity. }
  rewrite Hfind in *.
  destruct (find _ opts) as [[k meta]|] eqn:Hf; cbn [option_map fst snd] in *.
  - apply find_some in Hf as [Hin Hbad].
    unfold Listing.cannot_format in Hbad. cbn [fst snd] in Hbad.
    pose proof (options_line_entry inst k meta (Hvalue k meta Hin)) as H.
    destruct (Listing.options_line k _).
    + rewrite H in Hbad. discriminate.
    + destruct H as (cls & -> & ->). split; [reflexivity|]. now exists printed.
  - split; [reflexivity|]. now exists printed.
Qed.

End OptionsListing.

Section BannerExtras.

Import Banner.

Lemma rstrip_split (s : str) :
  exists ws, s = rstrip s ++ ws /\ Forall (fun c => space c = true) ws.
Proof.
  exists (rev (fst (span space (rev s)))). split.
  - unfold rstrip. rewrite <- rev_app_distr, span_app. now rewrite rev_involutive.
  - apply Forall_rev. apply span_all.
Qed.

Lemma rstrip_last (s body : str) (c : char) :
  rstrip s = body ++ [c] -> space c = false.
Proof.
  unfold rstrip. intros H.
  apply (f_equal (@rev char)) in H.
  rewrite rev_involutive, rev_app_distr in H. simpl in H.
  pose proof (span_stop space (rev s)) as Hs. now rewrite H in Hs.
Qed.

(** X12. The list of banners that [load_banners_from_folder] leaves is
    never empty.  It holds, in the order of the files, one banner for
    each file that can be read and is not blank: the text of the file
    without the blanks at its end, followed by two newlines; files that
    cannot be read and blank files are passed over, and when none is left
    the list is the one built-in banner. *)
Theorem banners_are_never_empty (f : Folder) :
  load_banners_from_folder f <> []
  /\ (forall b,
        In b (load_banners_from_folder f) ->
        b = fallback
        \/ exists p text,
             In p (txt_files f) /\ read_text f p = Some text
             /\ rstrip text <> [] /\ b = rstrip text ++ [10%N; 10%N])
  /\ (forall p text,
        In p (txt_files f) -> read_text f p = Some text ->
        rstrip text <> [] ->
        In (rstrip text ++ [10%N; 10%N]) (load_banners_from_folder f)
        /\ ~ In fallback (load_banners_from_folder f))
  /\ forall text,
       (exists ws,
          text = rstrip text ++ ws /\ Forall (fun c => space c = true) ws)
       /\ forall body c, rstrip text = body ++ [c] -> space c = false.
Proof.
  unfold load_banners_from_folder.
  set (one := fun p =>
         match read_text f p with
         | None => []
         | Some text =>
             match rstrip text with
             | [] => []
             | t => [t ++ [10%N; 10%N]]
             end
         end).
  assert (Hone : forall b p,
             In b (one p) ->
             exists text, read_text f p = Some text
                          /\ rstrip text <> [] /\ b = rstrip text ++ [10%N; 10%N]).
  { intros b p. unfold one. destruct (read_text f p) as [text|]; [|intros []].
    destruct (rstrip text) as [|c t] eqn:E; [intros []|].
    intros [<-|[]]. exists text. rewrite E. repeat split. discriminate. }
  assert (Hin : forall p text,
             read_text f p = Some text -> rstrip text <> [] ->
             In (rstrip text ++ [10%N; 10%N]) (one p)).
  { intros p text Hr Hne. unfold one. rewrite Hr.
    destruct (rstrip text); [congruence|now left]. }
  assert (Hfb : forall p, ~ In fallback (one p)).
  { intros p H. apply Hone in H as (text & _ & Hne & E).
    unfold fallback in E. apply (f_equal (@rev char)) in E.
    rewrite !rev_app_distr in E. simpl in E. discriminate E. }
  split; [|split; [|split]].
  - destruct (flat_map one (txt_files f)); discriminate.
  - intros b Hb. destruct (flat_map one (txt_files f)) as [|x l] eqn:E.
    + destruct Hb as [<-|[]]. now left.
    + right. rewrite <- E in Hb. apply in_flat_map in Hb as (p & Hp & Hb).
      apply Hone in Hb as (text & H1 & H2 & H3). now exists p, text.
  - intros p text Hp Hr Hne.
    assert (H : In (rstrip text ++ [10%N; 10%N]) (flat_map one (txt_files f))).
    { apply in_flat_map. exists p. split; [exact Hp|now apply Hin]. }
    destruct (flat_map one (txt_files f)) as [|x l] eqn:E; [destruct H|].
    split; [exact H|]. rewrite <- E. intros Hf.
    apply in_flat_map in Hf as (q & _ & Hq). now apply (Hfb q).
  - intros text. split; [apply rstrip_split|apply rstrip_last].
Qed.

End BannerExtras.

Section SearchExtras.

Lemma startswith_iff (s sub : str) :
  startswith s sub = true <-> exists post, s = sub ++ post.
Proof.
  unfold startswith. split.
  - destruct (strip_prefix sub s) as [r|] eqn:E; [|discriminate].
    intros _. exists r. now apply strip_prefix_Some.
  - intros [post ->]. now rewrite strip_prefix_app.
Qed.

(** [sub in s]: [s] is [sub] between two strings. *)
Lemma contains_iff (s sub : str) :
  contains s sub = true <-> exists pre post, s = pre ++ sub ++ post.
Proof.
  induction s as [|c s IH]; cbn [contains]; rewrite orb_true_iff, startswith_iff.
  - split.
    + intros [[post E]|H]; [|discriminate]. exists [], post. exact E.
    + intros ([|x pre] & post & E); [left; now exists post|discriminate].
  - rewrite IH. split.
    + intros [[post E]|(pre & post & E)].
      * exists [], post. exact E.
      * exists (c :: pre), post. now rewrite E.
    + intros ([|x pre] & post & E).
      * left. now exists post.
      * right. inversion E; subst. now exists pre, post.
Qed.

Lemma contains_trans (s b a : str) :
  contains s b = true -> contains b a = true -> contains s a = true.
Proof.
  rewrite !contains_iff. intros (p1 & q1 & ->) (p2 & q2 & ->).
  exists (p1 ++ p2), (q2 ++ q1). now rewrite <- !app_assoc.
Qed.

(** X15. A keyword that contains another, both lower-cased, finds no
    entry that the other does not find: making the keyword longer only
    narrows the search.  And every result is an entry of the registry,
    with its own description. *)
Theorem search_narrows
  (env : Env) (s : Search.t) (keyword longer : str) :
  contains (lower env longer) (lower env keyword) = true ->
  (forall r,
     In r (Search.search_modules env s longer) ->
     In r (Search.search_modules env s keyword))
  /\ forall r,
       In r (Search.search_modules env s keyword) ->
       exists meta,
         In (fst r, meta) (items (Search.metadata s))
         /\ snd r = description meta.
Proof.
  intros Hc. unfold Search.search_modules. split.
  - intros r Hr. apply in_flat_map in Hr as ([k m] & Hin & Hr).
    apply in_flat_map. exists (k, m). split; [exact Hin|].
    destruct (contains (lower env k) (lower env longer)
              || contains (lower env (description m)) (lower env longer))
      eqn:E; [|destruct Hr].
    apply orb_true_iff in E.
    assert (H : contains (lower env k) (lower env keyword)
                || contains (lower env (description m)) (lower env keyword)
                = true).
    { apply orb_true_iff.
      destruct E as [E|E]; [left|right]; eapply contains_trans; eauto. }
    now rewrite H.
  - intros r Hr. apply in_flat_map in Hr as ([k m] & Hin & Hr).
    destruct (_ || _); [|destruct Hr].
    destruct Hr as [<-|[]]. now exists m.
Qed.

End SearchExtras.

Section ExtractorExtras.

Import LazyFramework.

Lemma description_at_shape t v r :
  Spec.description_at t = Some (v, r) ->
  v <> [] /\ Forall (fun c => quote c = false) v.
Proof.
  unfold Spec.description_at.
  destruct (Spec.expect_quote t) as [t1|]; [|discriminate].
  destruct (strip_prefix (lit "description") t1) as [t2|]; [|discriminate].
  destruct (Spec.expect_quote t2) as [t3|]; [|discriminate].
  destruct (Spec.expect (Re.chr ":") (Spec.skip_blanks t3)) as [t4|];
    [|discriminate].
  destruct (Spec.expect_quote (Spec.skip_blanks t4)) as [t5|];
    [|discriminate].
  pose proof (span_all not_quote t5) as Hall.
  destruct (fst (span not_quote t5)) as [|c value]; [discriminate|].
  destruct (snd (span not_quote t5)); [discriminate|].
  intros E; inversion E; subst. split; [discriminate|].
  eapply Forall_impl; [|exact Hall]. intros x Hx.
  unfold not_quote in Hx. now destruct (quote x).
Qed.

Lemma description_field_shape t v :
  Spec.description_field t = Some v ->
  v <> [] /\ Forall (fun c => quote c = false) v.
Proof.
  induction t as [|c t IH]; cbn [Spec.description_field];
    destruct (Spec.description_at _) as [[v' r]|] eqn:E;
    try discriminate; try (intros H; inversion H; subst;
                           now apply (description_at_shape _ _ _ E)).
  exact IH.
Qed.

Lemma quoted_name_at_shape i t name u :
  Spec.quoted_name_at i t = Some (name, u) ->
  name <> [] /\ Forall (fun c => word c = true) name.
Proof.
  unfold Spec.quoted_name_at.
  destruct (Spec.expect_quote t) as [t1|]; [|discriminate].
  pose proof (span_all word t1) as Hall.
  destruct (fst (span word t1)) as [|c nm]; [discriminate|].
  destruct (Spec.expect_quote (snd (span word t1))) as [t2|]; [|discriminate].
  destruct (Spec.expect (Re.chr ":") _) as [t3|]; [|discriminate].
  intros E; inversion E; subst. split; [discriminate|exact Hall].
Qed.

Lemma quoted_names_shape i t name :
  In name (Spec.quoted_names i t) ->
  name <> [] /\ Forall (fun c => word c = true) name.
Proof.
  induction t as [|c t IH]; cbn [Spec.quoted_names]; [intros []|].
  destruct (Spec.quoted_name_at i (c :: t)) as [[n u]|] eqn:E; [|exact IH].
  intros [<-|H]; [now apply (quoted_name_at_shape _ _ _ _ E)|now apply IH].
Qed.

(** X16. The description the extractor returns is the value of the first
    description field of the first 120 lines (the quoted word, a colon and
    a quoted value, blanks allowed around the colon, in either kind of
    quotation marks), wherever in the text it stands, and the empty
    string when there is none or the file cannot be read.  A description
    that is found is not empty and holds no quotation mark: the value
    ends at the first one of either kind. *)
Theorem read_meta_description (env : Env) (p : Path) :
  description (_read_meta env p)
  = match readlines env p with
    | None => []
    | Some lines =>
        match Spec.description_field (Spec.head_text lines) with
        | Some v => v
        | None => []
        end
    end
  /\ Forall (fun c => quote c = false) (description (_read_meta env p))
  /\ forall lines v,
       readlines env p = Some lines ->
       Spec.description_field (Spec.head_text lines) = Some v ->
       description (_read_meta env p) = v /\ v <> [].
Proof.
  rewrite read_meta_cases.
  destruct (readlines env p) as [lines|]; cbn [description].
  - split; [reflexivity|]. split.
    + destruct (Spec.description_field _) as [v|] eqn:E; [|constructor].
      now apply (description_field_shape _ _ E).
    + intros l v El Ev. inversion El; subst l. rewrite Ev.
      split; [reflexivity|]. now apply (description_field_shape _ _ Ev).
  - split; [reflexivity|]. split; [constructor|]. discriminate.
Qed.

(** X17. Every option name the extractor returns is a non-empty string of
    letters, digits and underscores. *)
Theorem read_meta_names_are_identifiers (env : Env) (p : Path) (name : str) :
  In name (options (_read_meta env p)) ->
  name <> [] /\ Forall (fun c => word c = true) name.
Proof.
  rewrite read_meta_cases.
  destruct (readlines env p) as [lines|]; cbn [options]; [|intros []].
  destruct (Spec.options_block _) as [block|]; [|intros []].
  apply quoted_names_shape.
Qed.

End ExtractorExtras.

Section StoreExtras.

Import LazyFramework.

Lemma set_set_same {V} (d : dict V) k v v' : set (set d k v) k v' = set d k v'.
Proof.
  induction d as [|[k0 v0] d IH]; simpl.
  - destruct (str_eq_dec k k); [reflexivity|congruence].
  - destruct (str_eq_dec k k0) as [->|Hne]; simpl.
    + destruct (str_eq_dec k0 k0); [reflexivity|congruence].
    + destruct (str_eq_dec k k0); [congruence|now rewrite IH].
Qed.

(** X19. Of two [set] commands on the same option in a row, only the
    second counts: the engine ends in the state the second alone would
    have left, store order included. *)
Theorem set_twice_keeps_last
  (fw : LazyFramework.t) (opt w1 w2 : str) (ws1 ws2 : list str) :
  state_of (cmd_set (opt :: w2 :: ws2)
              (state_of (cmd_set (opt :: w1 :: ws1) fw)))
  = state_of (cmd_set (opt :: w2 :: ws2) fw).
Proof.
  rewrite (cmd_set_total (opt :: w1 :: ws1) fw).
  destruct (loaded_module fw) as [inst|] eqn:Hl; [|reflexivity].
  destruct (OPTIONS (ModuleInstance.module inst)) as [opts|] eqn:Ho;
    [|reflexivity].
  destruct (mem opt opts) eqn:Hm; [|reflexivity].
  unfold state_of at 2; cbn [fst snd].
  rewrite !cmd_set_total.
  cbn [loaded_module with_loaded_module ModuleInstance.module
         ModuleInstance.with_options ModuleInstance.options].
  rewrite Hl, Ho, Hm. unfold state_of; cbn [fst snd].
  unfold with_loaded_module, ModuleInstance.with_options; cbn.
  now rewrite set_set_same.
Qed.



End StoreExtras.

(* ================================================================== *)
(** * Further properties: the command loop *)
(* ================================================================== *)

Section ReplExtras.

Import Shlex Repl.

Lemma whitespace_space (c : char) : whitespace c = true -> space c = true.
Proof.
  unfold whitespace. intros H.
  repeat (apply orb_true_iff in H as [H|H]);
    apply N.eqb_eq in H; subst c; reflexivity.
Qed.

Lemma plain_cases (c : char) :
  plain c = true ->
  whitespace c = false /\ quote c = false /\ N.eqb c escape = false
  /\ space c = false.
Proof.
  unfold plain. intros H.
  apply andb_true_iff in H as [H He]. apply andb_true_iff in H as [Hs Hq].
  apply negb_true_iff in He, Hq, Hs.
  split; [|repeat split; assumption].
  destruct (whitespace c) eqn:W; [|reflexivity].
  apply whitespace_space in W. congruence.
Qed.

Lemma strip_nonblank (s : str) (c : char) :
  In c s -> space c = false -> strip s <> [].
Proof.
  intros Hin Hc. unfold strip.
  pose proof (span_app space s) as Hs.
  pose proof (span_all space s) as Ha.
  destruct (span space s) as [a b]; cbn [fst snd] in *.
  intros E.
  destruct (rstrip_split b) as (ws & Hb & Hws). rewrite E in Hb. cbn in Hb.
  subst b s. apply in_app_or in Hin as [Hin|Hin].
  - rewrite Forall_forall in Ha. specialize (Ha _ Hin). congruence.
  - rewrite Forall_forall in Hws. specialize (Hws _ Hin). congruence.
Qed.

Lemma strip_blank (s : str) :
  strip s <> [] -> exists c, In c s /\ space c = false.
Proof.
  intros H.
  destruct (forallb space s) eqn:F.
  - exfalso. apply H. unfold strip.
    assert (E : span space s = (s, [])).
    { clear H. induction s as [|c s IH]; [reflexivity|].
      cbn in F. apply andb_true_iff in F as [Fc Fs].
      cbn. rewrite Fc, (IH Fs). reflexivity. }
    rewrite E. reflexivity.
  - clear H. induction s as [|c s IH]; [discriminate|].
    cbn in F. apply andb_false_iff in F as [Fc|Fs].
    + exists c. split; [now left|assumption].
    + destruct (IH Fs) as (c' & Hc' & Hs). exists c'. split; [now right|assumption].
Qed.

Lemma cons_token_nonempty t r : cons_token t r <> Ok [].
Proof. destruct r; discriminate. Qed.

Lemma tokens_nonempty (s : str) :
  forall st quoted token,
    pending st quoted token \/ (exists c, In c s /\ whitespace c = false) ->
    tokens st quoted token s <> Ok [].
Proof.
  induction s as [|c s IH]; intros st quoted token H.
  - destruct H as [H|(c & [] & _)].
    destruct st; cbn in *; [contradiction| |discriminate|destruct back; discriminate].
    destruct token; [|discriminate].
    destruct quoted; [discriminate|]. destruct H; congruence.
  - assert (Hrest : whitespace c = true ->
                    ~ pending st quoted token ->
                    exists c0, In c0 s /\ whitespace c0 = false).
    { intros W Hn. destruct H as [H|(c0 & [->|Hin] & Hc0)];
        [contradiction|congruence|]. now exists c0. }
    destruct st; cbn [tokens].
    + destruct (whitespace c) eqn:W.
      { apply IH. right. apply Hrest; [reflexivity|]. intros []. }
      destruct (N.eqb c escape); [apply IH; now left|].
      destruct (quote c); apply IH; left; cbn; [exact I|left; discriminate].
    + destruct (whitespace c) eqn:W.
      { destruct token as [|t0 token]; [destruct quoted|];
          try apply cons_token_nonempty.
        apply IH. right. apply Hrest; [reflexivity|].
        cbn. intros [Hp|Hp]; congruence. }
      destruct (quote c); [apply IH; now left|].
      destruct (N.eqb c escape); [apply IH; now left|].
      apply IH. left. cbn. left. now destruct token.
    + destruct (N.eqb c q); [apply IH; left; cbn; now right|].
      destruct (N.eqb c escape && N.eqb q 34); apply IH; now left.
    + destruct back as [q|].
      * destruct (negb (N.eqb c escape) && negb (N.eqb c q)); apply IH; now left.
      * apply IH. left. cbn. left. now destruct token.
Qed.

Lemma tokens_raises (s : str) :
  forall st quoted token e,
    tokens st quoted token s = Raise e ->
    e = no_closing_quotation \/ e = no_escaped_character.
Proof.
  induction s as [|c s IH]; intros st quoted token e.
  - destruct st; cbn; try discriminate.
    + destruct token, quoted; discriminate.
    + intros [= <-]. now left.
    + destruct back; intros [= <-]; now right.
  - destruct st; cbn [tokens].
    + destruct (whitespace c); [apply IH|].
      destruct (N.eqb c escape); [apply IH|].
      destruct (quote c); apply IH.
    + destruct (whitespace c).
      { destruct token as [|t0 token]; [destruct quoted|]; try apply IH;
          (destruct (tokens Between false [] s) eqn:E;
           [discriminate|intros [= <-]; now apply IH in E]). }
      destruct (quote c); [apply IH|].
      destruct (N.eqb c escape); apply IH.
    + destruct (N.eqb c q); [apply IH|].
      destruct (N.eqb c escape && N.eqb q 34); apply IH.
    + destruct back as [q|]; [|apply IH].
      destruct (negb (N.eqb c escape) && negb (N.eqb c q)); apply IH.
Qed.

(** X21. A line that is not blank never leaves [repl] without a command
    word: [shlex.split] gives at least one word, or raises one of its two
    quoting errors; [parts[0]] does not fail. *)
Theorem nonblank_line_has_command_word (line : str) :
  strip line <> [] ->
  (exists cmd args, split line = Ok (cmd :: args))
  \/ split line = Raise no_closing_quotation
  \/ split line = Raise no_escaped_character.
Proof.
  intros H. apply strip_blank in H as (c & Hin & Hc).
  assert (Hw : whitespace c = false).
  { destruct (whitespace c) eqn:W; [|reflexivity].
    apply whitespace_space in W. congruence. }
  pose proof (tokens_nonempty line Between false []
                (or_intror (ex_intro _ c (conj Hin Hw)))) as Hne.
  unfold split. destruct (tokens Between false [] line) as [[|cmd args]|e] eqn:E.
  - congruence.
  - left. now exists cmd, args.
  - right. apply tokens_raises in E as [->| ->]; [now left|now right].
Qed.

Lemma tokens_word_plain (w : str) :
  Forall (fun c => plain c = true) w ->
  forall quoted token s,
    tokens Word quoted token (w ++ s) = tokens Word quoted (token ++ w) s.
Proof.
  induction 1 as [|c w Hc Hw IH]; intros quoted token s.
  - now rewrite app_nil_r.
  - apply plain_cases in Hc as (W & Q & E & _).
    cbn [app tokens]. rewrite W, Q, E, IH, <- app_assoc. reflexivity.
Qed.

Lemma tokens_plain_word (w : str) (s : str) :
  plain_word w ->
  tokens Between false [] (w ++ s) = tokens Word false w s.
Proof.
  intros [Hne Hw]. destruct w as [|c w]; [congruence|].
  inversion Hw as [|? ? Hc Hw']; subst.
  apply plain_cases in Hc as (W & Q & E & _).
  cbn [app tokens]. rewrite W, Q, E.
  now rewrite (tokens_word_plain w Hw').
Qed.

Lemma split_join_plain (ws : list str) :
  Forall plain_word ws -> split (join (lit " ") ws) = Ok ws.
Proof.
  unfold split. induction 1 as [|w ws Hw Hws IH]; [reflexivity|].
  destruct ws as [|w2 ws].
  - cbn [join]. rewrite <- (app_nil_r w) at 1.
    rewrite (tokens_plain_word w [] Hw). cbn.
    destruct Hw as [Hne _]. destruct w; [congruence|reflexivity].
  - change (join (lit " ") (w :: w2 :: ws))
      with (w ++ lit " " ++ join (lit " ") (w2 :: ws)).
    rewrite (tokens_plain_word w _ Hw).
    change (lit " " ++ join (lit " ") (w2 :: ws))
      with ((32%N : char) :: join (lit " ") (w2 :: ws)).
    cbn [tokens]. change (whitespace 32%N) with true. cbv iota.
    rewrite IH. destruct Hw as [Hne _].
    destruct w; [congruence|reflexivity].
Qed.

(** X22. A command typed as plain words with one blank between them (no
    quotation marks, no backslashes) is run on exactly those words: the
    loop hands the words after the first to the command the first names,
    and goes on with the next line. *)
Theorem plain_line_runs_its_command
    (external : str -> list str -> M LazyFramework.t unit)
    (env : Env) (cmd : str) (args : list str)
    (rest : list (Env * str)) (s : LazyFramework.t) :
  Forall plain_word (cmd :: args) ->
  cmd <> lit "exit" -> cmd <> lit "quit" ->
  loop external ((env, join (lit " ") (cmd :: args)) :: rest) s
  = (command_named external env cmd args ;; loop external rest)%py s.
Proof.
  intros Hws Hexit Hquit.
  assert (Hstrip : strip (join (lit " ") (cmd :: args)) <> []).
  { inversion Hws as [|? ? [Hne Hc] _]; subst.
    destruct cmd as [|c cmd]; [congruence|].
    inversion Hc as [|? ? Hp _]; subst.
    apply plain_cases in Hp as (_ & _ & _ & Hs).
    apply (strip_nonblank _ c); [|exact Hs].
    destruct args; cbn; now left. }
  cbn [loop].
  destruct (strip (join (lit " ") (cmd :: args))) as [|c0 l0]; [congruence|].
  rewrite (split_join_plain _ Hws).
  unfold bind at 1. cbn [lift ret].
  destruct (str_eq_dec cmd (lit "exit")); [congruence|].
  destruct (str_eq_dec cmd (lit "quit")); [congruence|].
  destruct ((command_named external env cmd args ;; loop external rest)%py s)
    as [[r s'] o]. reflexivity.
Qed.

Lemma tokens_raise_after (pre s : str) (e : exn) :
  Forall (fun c => quote c = false /\ c <> escape) pre ->
  (forall quoted token, tokens Between quoted token s = Raise e) ->
  (forall quoted token, tokens Word quoted token s = Raise e) ->
  forall quoted token,
    tokens Between quoted token (pre ++ s) = Raise e
    /\ tokens Word quoted token (pre ++ s) = Raise e.
Proof.
  intros Hpre HB HW.
  induction Hpre as [|c pre [Q E] _ IH]; intros quoted token.
  - split; [apply HB|apply HW].
  - apply N.eqb_neq in E. cbn [app tokens]. rewrite Q, E. split.
    + destruct (whitespace c); apply IH.
    + destruct (whitespace c); [|apply IH].
      destruct token as [|t0 token]; [destruct quoted|];
        try apply IH;
        now rewrite (proj1 (IH false [])).
Qed.

Lemma tokens_open_apostrophe (post : str) :
  ~ In 39%N post ->
  forall token, tokens (Quoted 39%N) true token post = Raise no_closing_quotation.
Proof.
  induction post as [|c post IH]; intros Hn token; [reflexivity|].
  cbn [tokens].
  destruct (N.eqb c 39%N) eqn:E.
  - apply N.eqb_eq in E. subst c. exfalso. apply Hn. now left.
  - change (N.eqb 39%N 34%N) with false. rewrite andb_false_r.
    apply IH. intros Hin. apply Hn. now right.
Qed.

(** X23. An apostrophe that is never closed ends the shell: on a line whose
    first quotation mark is an apostrophe, with no backslash before it and
    no second apostrophe after it, [shlex.split] raises, nothing catches
    it, and [repl] ends with that exception, having printed nothing for
    the line and read none of the lines after it. *)
Theorem apostrophe_ends_the_shell
    (external : str -> list str -> M LazyFramework.t unit)
    (env : Env) (pre post : str)
    (rest : list (Env * str)) (s : LazyFramework.t) :
  Forall (fun c => quote c = false /\ c <> escape) pre ->
  ~ In 39%N post ->
  loop external ((env, pre ++ 39%N :: post) :: rest) s
  = (Raise no_closing_quotation, s, []).
Proof.
  intros Hpre Hpost.
  assert (Hsplit : split (pre ++ 39%N :: post) = Raise no_closing_quotation).
  { apply (tokens_raise_after pre (39%N :: post) _ Hpre); intros quoted token;
      cbn [tokens]; change (whitespace 39%N) with false;
      change (quote 39%N) with true; change (N.eqb 39%N escape) with false;
      cbv iota; apply (tokens_open_apostrophe post Hpost). }
  assert (Hstrip : strip (pre ++ 39%N :: post) <> []).
  { apply (strip_nonblank _ 39%N); [|reflexivity].
    apply in_or_app. right. now left. }
  cbn [loop].
  destruct (strip (pre ++ 39%N :: post)); [congruence|].
  unfold bind. rewrite Hsplit. reflexivity.
Qed.

Lemma state_of_bind {S A B} (m : M S A) (k : A -> M S B) (s : S) :
  state_of (bind m k s)
  = match outcome_of (m s) with
    | Ok a => state_of (k a (state_of (m s)))
    | Raise _ => state_of (m s)
    end.
Proof.
  unfold bind, state_of, outcome_of.
  destruct (m s) as [[[a|e] s1] o1]; cbn; [|reflexivity].
  destruct (k a s1) as [[r s2] o2]. reflexivity.
Qed.

Lemma command_named_reachable_from
    (external : str -> list str -> M LazyFramework.t unit)
    (env : Env) (cmd : str) (args : list str) (s0 s : LazyFramework.t) :
  (forall name args0 s1, state_of (external name args0 s1) = s1) ->
  reachable_from s0 s ->
  reachable_from s0 (state_of (command_named external env cmd args s)).
Proof.
  intros Hext Hs. unfold command_named.
  destruct (str_eq_dec cmd (lit "show"));
    [apply (reachable_from_step s0 env (Show args)), Hs|].
  destruct (str_eq_dec cmd (lit "use"));
    [apply (reachable_from_step s0 env (Use args)), Hs|].
  destruct (str_eq_dec cmd (lit "options"));
    [apply (reachable_from_step s0 env (Options args)), Hs|].
  destruct (str_eq_dec cmd (lit "set"));
    [apply (reachable_from_step s0 env (SetOption args)), Hs|].
  destruct (str_eq_dec cmd (lit "run"));
    [apply (reachable_from_step s0 env (Run args)), Hs|].
  destruct (str_eq_dec cmd (lit "back"));
    [apply (reachable_from_step s0 env (Back args)), Hs|].
  destruct (str_eq_dec cmd (lit "scan"));
    [apply (reachable_from_step s0 env (Scan args)), Hs|].
  destruct (str_eq_dec cmd (lit "search"));
    [apply (reachable_from_step s0 env (SearchFor args)), Hs|].
  destruct (in_dec str_eq_dec cmd external_names); [now rewrite Hext|exact Hs].
Qed.

Lemma reachable_from_reachable (s0 s : LazyFramework.t) :
  reachable_from s0 s -> reachable s0 -> reachable s.
Proof.
  intros H H0. induction H as [|env c s _ IH]; [exact H0|].
  now apply reachable_step.
Qed.

(** X24. Whatever is typed, the state [repl] leaves is reached from the
    state it started in by a sequence of the eight modelled commands,
    however the loop ends (by exit or quit, at the end of the input, or
    with an exception), as long as the other commands (help, banner, cd,
    ls, clear) leave the engine's fields as they are.  So [repl], started
    in a state the engine can reach, ends in one. *)
Theorem repl_state_reached_by_commands
    (external : str -> list str -> M LazyFramework.t unit) (banner : str)
    (inputs : list (Env * str)) (s : LazyFramework.t) :
  (forall name args s0, state_of (external name args s0) = s0) ->
  reachable_from s (state_of (repl external banner inputs s))
  /\ (reachable s -> reachable (state_of (repl external banner inputs s))).
Proof.
  intros Hext.
  assert (H : reachable_from s (state_of (repl external banner inputs s))).
  { unfold repl.
    rewrite !state_of_bind. cbn [print outcome_of state_of fst snd].
    assert (Hloop : forall s1, reachable_from s s1 ->
                      reachable_from s (state_of (loop external inputs s1))).
    { induction inputs as [|[env line] rest IH]; intros s1 Hs; [exact Hs|].
      cbn [loop]. destruct (strip line); [now apply IH|].
      rewrite state_of_bind.
      destruct (split line) as [[|cmd args]|e];
        cbn [lift ret raise outcome_of state_of fst snd]; try exact Hs.
      destruct (str_eq_dec cmd (lit "exit")); [exact Hs|].
      destruct (str_eq_dec cmd (lit "quit")); [exact Hs|].
      rewrite state_of_bind.
      pose proof (command_named_reachable_from external env cmd args s s1
                    Hext Hs) as Hc.
      destruct (outcome_of (command_named external env cmd args s1));
        [now apply IH|exact Hc]. }
    apply Hloop. constructor. }
  split; [exact H|]. now apply reachable_from_reachable.
Qed.

End ReplExtras.

(* ================================================================== *)
(** * The further properties on the concrete installation *)
(* ================================================================== *)

Section ExtraWitnesses.

Import LazyFramework.

Lemma unloaded_commands_do_nothing_witness :
  loaded_module Demo.start = None
  /\ cmd_run [] Demo.start
     = (Ok tt, Demo.start, [Print [PS (lit "No module loaded.")]]).
Proof.
  split; [reflexivity|].
  exact (proj1 (proj2 (unloaded_commands_do_nothing Demo.start [] eq_refl))).
Defined.

Lemma use_then_back_restores_witness :
  loaded_module Demo.start = None
  /\ state_of (cmd_back []
                 (state_of (cmd_use Demo.env [lit "aux/echo.py"] Demo.start)))
     = Demo.start.
Proof.
  split; [reflexivity|].
  exact (use_then_back_restores Demo.env Demo.start [lit "aux/echo.py"] []
           eq_refl).
Defined.

Lemma use_discards_previous_session_witness :
  trace_of (cmd_use Demo.env [lit "aux/echo.py"] Demo.start)
  = loaded_line (lit "examples/aux/echo.py")
  /\ cmd_use Demo.env [lit "aux/echo.py"]
       (with_loaded_module Demo.start
          (loaded_module DemoSessions.echo_configured))
     = cmd_use Demo.env [lit "aux/echo.py"] Demo.start.
Proof.
  assert (H : trace_of (cmd_use Demo.env [lit "aux/echo.py"] Demo.start)
              = loaded_line (lit "examples/aux/echo.py"))
    by (vm_compute; reflexivity).
  split; [exact H|].
  exact (proj1 (use_discards_previous_session Demo.env Demo.start
                  (lit "aux/echo.py") [] (lit "examples/aux/echo.py")
                  (loaded_module DemoSessions.echo_configured) H)).
Defined.

Lemma run_keeps_what_the_module_leaves_witness :
  loaded_module DemoMore.crash_loaded = Some DemoMore.crash_instance
  /\ run_attr (ModuleInstance.module DemoMore.crash_instance)
     = Some DemoMore.crash_run
  /\ exists tail,
       trace_of (cmd_run [] (state_of (cmd_run [] DemoMore.crash_loaded)))
       = Call (lit "modules/crash.py")
              [(lit "user", PyStr (lit "root")); (lit "seen", PyBool true)]
              []
         :: tail.
Proof.
  split; [reflexivity|]. split; [reflexivity|].
  exact (proj2 (run_keeps_what_the_module_leaves DemoMore.crash_loaded
                  DemoMore.crash_instance DemoMore.crash_run [] []
                  eq_refl eq_refl)).
Defined.

Lemma no_file_has_key_gone :
  forall d, In d (discovered Demo.env) ->
            key_of_file Demo.env d <> lit "modules/gone.py".
Proof.
  intros d Hd. cbv in Hd.
  repeat (destruct Hd as [<-|Hd]; [vm_compute; discriminate|]).
  destruct Hd.
Defined.

Lemma scan_forgets_missing_files_witness :
  (forall d, In d (discovered Demo.env) ->
             key_of_file Demo.env d <> lit "modules/gone.py")
  /\ get (modules (state_of (scan_modules Demo.env
                               (with_registry Demo.start
                                  [(lit "modules/gone.py",
                                    {| folder := MODULE_DIR;
                                       rel := lit "gone.py" |})]
                                  [(lit "modules/gone.py", empty_meta)]))))
         (lit "modules/gone.py")
     = None.
Proof.
  split; [exact no_file_has_key_gone|].
  exact (proj1 (scan_forgets_missing_files Demo.env _ (lit "modules/gone.py")
                  no_file_has_key_gone)).
Defined.

Lemma demo_rglob_NoDup : forall root, NoDup (rglob Demo.env root).
Proof.
  intros [|]; cbn;
    repeat (constructor;
            [cbn; intros H;
             repeat (destruct H as [H|H]; [discriminate H|]); exact H|]);
    constructor.
Defined.

Lemma scan_keeps_discovery_order_witness :
  paths_portable Demo.env
  /\ (forall root, NoDup (rglob Demo.env root))
  /\ cmd_scan Demo.env [] Demo.start
     = (Ok tt, state_of (scan_modules Demo.env Demo.start),
        [Print [PS (lit "Scanned 7 modules.")]]).
Proof.
  split; [exact demo_paths_portable|]. split; [exact demo_rglob_NoDup|].
  exact (proj2 (scan_keeps_discovery_order Demo.env Demo.start []
                  demo_paths_portable demo_rglob_NoDup)).
Defined.

Lemma ports_schema_has_no_value_field :
  forall k meta,
    get DemoMore.ports_schema k = Some meta -> get meta (lit "value") = None.
Proof.
  intros k meta H. unfold DemoMore.ports_schema in H. simpl in H.
  destruct (str_eq_dec k (lit "HOST")); [inversion H; reflexivity|].
  destruct (str_eq_dec k (lit "PORTS")); [|discriminate].
  inversion H. reflexivity.
Defined.

Lemma options_raises_on_unformattable_witness :
  loaded_module DemoMore.ports_loaded = Some DemoMore.ports_instance
  /\ OPTIONS (ModuleInstance.module DemoMore.ports_instance)
     = Some DemoMore.ports_schema
  /\ outcome_of (Listing.cmd_options [] DemoMore.ports_loaded)
     = Raise (Exception
                (lit "unsupported format string passed to list.__format__")).
Proof.
  split; [reflexivity|]. split; [reflexivity|].
  exact (proj1 (proj2 (options_raises_on_unformattable DemoMore.ports_loaded
                         DemoMore.ports_instance DemoMore.ports_schema []
                         eq_refl eq_refl ports_schema_has_no_value_field))).
Defined.

Lemma echo_configured_reachable : reachable DemoSessions.echo_configured.
Proof.
  apply (reachable_step Demo.env
           (SetOption [lit "MSG"; lit "hi"; lit "there"])).
  apply (reachable_step Demo.env (Use [lit "aux/echo.py"])).
  apply reachable_init.
Defined.

Lemma reachable_states_are_well_formed_witness :
  reachable DemoSessions.echo_configured
  /\ keys (modules DemoSessions.echo_configured)
     = keys (metadata DemoSessions.echo_configured).
Proof.
  split; [exact echo_configured_reachable|].
  exact (proj1 (reachable_states_are_well_formed DemoSessions.echo_configured
                  echo_configured_reachable)).
Defined.

Lemma use_resolves_listed_files_witness :
  paths_portable Demo.env
  /\ In DemoFiles.bare (discovered Demo.env)
  /\ prefixed (typed_path Demo.env DemoFiles.bare) = false
  /\ candidate_key (state_of (scan_modules Demo.env Demo.start))
       (lit "bare.py")
     = lit "modules/bare.py".
Proof.
  assert (Hin : In DemoFiles.bare (discovered Demo.env))
    by (vm_compute; auto).
  split; [exact demo_paths_portable|]. split; [exact Hin|].
  split; [reflexivity|].
  destruct (use_resolves_listed_files Demo.env Demo.start DemoFiles.bare
              demo_paths_portable Hin) as (_ & _ & H).
  change (lit "bare.py") with (typed_path Demo.env DemoFiles.bare).
  rewrite (H eq_refl). reflexivity.
Defined.

Lemma search_narrows_witness :
  contains (lower Demo.env (lit "aux/ECHO")) (lower Demo.env (lit "Echo"))
  = true
  /\ forall r,
       In r (Search.search_modules Demo.env DemoSessions.index (lit "aux/ECHO")) ->
       In r (Search.search_modules Demo.env DemoSessions.index (lit "Echo")).
Proof.
  split; [reflexivity|].
  exact (proj1 (search_narrows Demo.env DemoSessions.index (lit "Echo")
                  (lit "aux/ECHO") eq_refl)).
Defined.

Lemma read_meta_names_are_identifiers_witness :
  In (lit "PORT") (options (_read_meta Demo.env (path_of DemoFiles.spaced)))
  /\ lit "PORT" <> []
  /\ Forall (fun c => word c = true) (lit "PORT").
Proof.
  assert (Hin : In (lit "PORT")
                   (options (_read_meta Demo.env (path_of DemoFiles.spaced))))
    by (vm_compute; auto).
  split; [exact Hin|].
  exact (read_meta_names_are_identifiers Demo.env (path_of DemoFiles.spaced)
           (lit "PORT") Hin).
Defined.

Lemma get_options_keeps_schema_fields_witness :
  OPTIONS (ModuleInstance.module DemoMore.shadow_instance)
  = Some [(lit "MODE", [(lit "value", PyStr (lit "fixed"));
                        (lit "default", PyStr (lit "fast"))])]
  /\ exists d entry,
       ModuleInstance.get_options DemoMore.shadow_instance
       = (Ok d, DemoMore.shadow_instance, [])
       /\ get d (lit "MODE") = Some entry
       /\ get entry (lit "value") = Some (PyStr (lit "fixed"))
       /\ get entry (lit "default") = Some (PyStr (lit "fast")).
Proof.
  split; [reflexivity|].
  destruct (get_options_keeps_schema_fields DemoMore.shadow_instance
              [(lit "MODE", [(lit "value", PyStr (lit "fixed"));
                             (lit "default", PyStr (lit "fast"))])]
              (lit "MODE")
              [(lit "value", PyStr (lit "fixed"));
               (lit "default", PyStr (lit "fast"))]
              eq_refl eq_refl) as (d & entry & H1 & H2 & H3 & H4).
  exists d, entry. split; [exact H1|]. split; [exact H2|].
  split; [exact H4|]. rewrite H3; [reflexivity|discriminate].
Defined.


Lemma nonblank_line_has_command_word_witness :
  Repl.strip (lit "  set MSG 'hi there' ") <> []
  /\ ((exists cmd args,
         Shlex.split (lit "  set MSG 'hi there' ") = Ok (cmd :: args))
      \/ Shlex.split (lit "  set MSG 'hi there' ")
         = Raise Shlex.no_closing_quotation
      \/ Shlex.split (lit "  set MSG 'hi there' ")
         = Raise Shlex.no_escaped_character).
Proof.
  assert (H : Repl.strip (lit "  set MSG 'hi there' ") <> [])
    by (vm_compute; discriminate).
  split; [exact H|].
  exact (nonblank_line_has_command_word (lit "  set MSG 'hi there' ") H).
Defined.

Lemma plain_line_runs_its_command_witness :
  Forall Repl.plain_word [lit "set"; lit "MSG"; lit "hi"; lit "there"]
  /\ Repl.loop DemoRepl.no_externals
       [(Demo.env, lit "set MSG hi there")] DemoSessions.echo_loaded
     = (Repl.command_named DemoRepl.no_externals Demo.env (lit "set")
          [lit "MSG"; lit "hi"; lit "there"] ;;
        Repl.loop DemoRepl.no_externals [])%py DemoSessions.echo_loaded.
Proof.
  assert (H : Forall Repl.plain_word
                [lit "set"; lit "MSG"; lit "hi"; lit "there"]).
  { repeat constructor; discriminate. }
  split; [exact H|].
  apply (plain_line_runs_its_command DemoRepl.no_externals Demo.env
           (lit "set") [lit "MSG"; lit "hi"; lit "there"] []
           DemoSessions.echo_loaded H); discriminate.
Defined.

Lemma apostrophe_ends_the_shell_witness :
  Repl.loop DemoRepl.no_externals
    [(Demo.env, lit "set MSG it's fine"); (Demo.env, lit "run")]
    DemoSessions.echo_loaded
  = (Raise Shlex.no_closing_quotation, DemoSessions.echo_loaded, []).
Proof.
  apply (apostrophe_ends_the_shell DemoRepl.no_externals Demo.env
           (lit "set MSG it") (lit "s fine") [(Demo.env, lit "run")]
           DemoSessions.echo_loaded).
  - repeat constructor; discriminate.
  - vm_compute. intros H.
    repeat (destruct H as [H|H]; [discriminate H|]). exact H.
Defined.

Lemma repl_state_reached_by_commands_witness :
  reachable_from Demo.start
    (state_of (Repl.repl DemoRepl.no_externals (lit "LZF") DemoRepl.typed
                 Demo.start)).
Proof.
  apply (repl_state_reached_by_commands DemoRepl.no_externals (lit "LZF")
           DemoRepl.typed Demo.start).
  reflexivity.
Defined.

End ExtraWitnesses.
